(** * The radial ego graph of recommended events (RadialEgoGraph.tsx)

    A shallow embedding of the layout functions of the component: the
    string hash, the topic palette, the enrichment and ranking of the
    payload's nodes, the time-to-radius bands, the golden-angle placement,
    the size scale and the click handler.

    Numbers.  A JavaScript number is a binary64 float.  The embedding keeps
    the values that are not ordinary numbers ([NaN], the infinities) and
    computes on the ordinary ones with exact rationals ([Q]): rounding to
    binary64 and the sign of zero are abstracted away.  Time values (what
    [Date.now] and [Date.parse] yield) are integers of milliseconds ([Z]),
    32-bit integers are [Z] with the wrap-around written out.

    Strings.  A JavaScript string is a sequence of UTF-16 code units; the
    embedding uses [string], one [ascii] per code unit, so it covers the
    strings whose code units are below 256 (the Latin-1 range). *)

From Stdlib Require Import ZArith QArith Qround Qminmax Qabs.
From Stdlib Require Import List String Ascii Bool DecimalString.
From Stdlib Require Import Lia Lqa Permutation Sorted.
From Stdlib Require HexString.
Import ListNotations.

Local Open Scope Z_scope.

(** ** The host: the built-ins of the language the component calls *)

Module JS.

(** [ToInt32]: what [x | 0] does to an integral number. *)
Definition toInt32 (z : Z) : Z := (z + 2 ^ 31) mod 2 ^ 32 - 2 ^ 31.

(** [h << k] on a 32-bit integer. *)
Definition shl (h k : Z) : Z := toInt32 (Z.shiftl h k).

(** [s.charCodeAt(i)], read off the head of the remaining string. *)
Definition charCode (c : ascii) : Z := Z.of_nat (nat_of_ascii c).

(** White space of [String.prototype.trim] in the Latin-1 range:
    TAB, LF, VT, FF, CR, SP and NBSP. *)
Definition isWhiteSpace (c : ascii) : bool :=
  let n := charCode c in
  ((9 <=? n) && (n <=? 13)) || (n =? 32) || (n =? 160).

Fixpoint trimStart (s : string) : string :=
  match s with
  | String c s' => if isWhiteSpace c then trimStart s' else s
  | EmptyString => EmptyString
  end.

Fixpoint trimEnd (s : string) : string :=
  match s with
  | String c s' =>
      match trimEnd s' with
      | EmptyString => if isWhiteSpace c then EmptyString else String c EmptyString
      | r => String c r
      end
  | EmptyString => EmptyString
  end.

Definition trim (s : string) : string := trimEnd (trimStart s).

(** [toLowerCase] on one code unit of the Latin-1 range: A-Z, and the
    accented capitals U+00C0..U+00DE without the multiplication sign. *)
Definition lowerChar (c : ascii) : ascii :=
  let n := charCode c in
  if ((65 <=? n) && (n <=? 90)) || ((192 <=? n) && (n <=? 222) && negb (n =? 215))
  then ascii_of_nat (Z.to_nat (n + 32))
  else c.

Fixpoint toLowerCase (s : string) : string :=
  match s with
  | String c s' => String (lowerChar c) (toLowerCase s')
  | EmptyString => EmptyString
  end.

(** [s.startsWith(p)] and [s.slice(k)]. *)
Definition startsWith (s p : string) : bool := String.prefix p s.

Fixpoint slice (k : nat) (s : string) : string :=
  match k, s with
  | S k', String _ s' => slice k' s'
  | _, _ => s
  end.

(** Truthiness of a string that may be absent: [undefined], [null] and
    the empty string are falsy. *)
Definition truthy (v : option string) : bool :=
  match v with
  | Some (String _ _) => true
  | _ => false
  end.

(** [v || ""] on a string that may be absent. *)
Definition orEmpty (v : option string) : string :=
  match v with
  | Some s => s
  | None => EmptyString
  end.

(** [String(v)] on a string that may be [undefined]. *)
Definition toString (v : option string) : string :=
  match v with
  | Some s => s
  | None => "undefined"%string
  end.

(** A number: not-a-number, an infinity, or an ordinary value. *)
Inductive number : Type :=
| NaN : number
| Inf : bool -> number          (* [Inf true] is [-Infinity] *)
| Fin : Q -> number.

Definition ofZ (z : Z) : number := Fin (inject_Z z).

Definition isZero (q : Q) : bool := Qeq_bool q 0.
Definition isNeg (q : Q) : bool := negb (Qle_bool 0 q).

Definition neg (x : number) : number :=
  match x with
  | NaN => NaN
  | Inf s => Inf (negb s)
  | Fin q => Fin (- q)
  end.

Definition add (x y : number) : number :=
  match x, y with
  | NaN, _ | _, NaN => NaN
  | Inf s, Inf s' => if Bool.eqb s s' then Inf s else NaN
  | Inf s, Fin _ | Fin _, Inf s => Inf s
  | Fin a, Fin b => Fin (a + b)
  end.

Definition sub (x y : number) : number := add x (neg y).

Definition mul (x y : number) : number :=
  match x, y with
  | NaN, _ | _, NaN => NaN
  | Inf s, Inf s' => Inf (xorb s s')
  | Inf s, Fin q | Fin q, Inf s => if isZero q then NaN else Inf (xorb s (isNeg q))
  | Fin a, Fin b => Fin (a * b)
  end.

(** Division; a zero divisor is the positive zero (what [x - x] is). *)
Definition div (x y : number) : number :=
  match x, y with
  | NaN, _ | _, NaN => NaN
  | Inf _, Inf _ => NaN
  | Inf s, Fin q => Inf (xorb s (isNeg q))
  | Fin _, Inf _ => Fin 0
  | Fin a, Fin b =>
      if isZero b then (if isZero a then NaN else Inf (isNeg a))
      else Fin (a / b)
  end.

(** [x <= y] and [x > y]: both are false when an operand is [NaN]. *)
Definition leb (x y : number) : bool :=
  match x, y with
  | NaN, _ | _, NaN => false
  | Inf true, _ | _, Inf false => true
  | Inf false, _ | _, Inf true => false
  | Fin a, Fin b => Qle_bool a b
  end.

Definition gtb (x y : number) : bool := leb y x && negb (leb x y).

Definition isNaN (x : number) : bool :=
  match x with
  | NaN => true
  | _ => false
  end.

(** [Math.abs] on a 32-bit integer held in a number. *)
Definition Math_abs (z : Z) : Z := Z.abs z.

(** [Math.min(x, y)] and [Math.max(x, y)]: [NaN] is contagious. *)
Definition min2 (x y : number) : number :=
  match x, y with
  | NaN, _ | _, NaN => NaN
  | _, _ => if leb x y then x else y
  end.

Definition max2 (x y : number) : number :=
  match x, y with
  | NaN, _ | _, NaN => NaN
  | _, _ => if leb x y then y else x
  end.

(** [Math.min(...xs)] is [Infinity] and [Math.max(...xs)] is [-Infinity]
    on no arguments. *)
Definition Math_min (xs : list number) : number := fold_right min2 (Inf false) xs.
Definition Math_max (xs : list number) : number := fold_right max2 (Inf true) xs.

(** [Math.PI], the binary64 number nearest to pi. *)
Definition PI : Q := 884279719003555 # 281474976710656.
Definition Math_PI : number := Fin PI.

(** [x % 1]: the remainder has the sign of [x]; it is [NaN] on an infinity. *)
Definition mod1 (x : number) : number :=
  match x with
  | Fin q => if Qle_bool 0 q then Fin (q - inject_Z (Qfloor q))
             else Fin (q - inject_Z (Qceiling q))
  | _ => NaN
  end.

(** [Array.prototype.sort(cmp)].  The language requires the sort to be
    stable, and on a consistent comparator its result is then unique; it
    is computed here by insertion from the right: an element goes in
    front of the first later element it does not compare greater than. *)
Fixpoint insert {A : Type} (cmp : A -> A -> Q) (x : A) (l : list A) : list A :=
  match l with
  | [] => [x]
  | y :: l' => if Qle_bool (cmp x y) 0 then x :: l else y :: insert cmp x l'
  end.

Definition sort {A : Type} (cmp : A -> A -> Q) (l : list A) : list A :=
  fold_right (insert cmp) [] l.

(** [x === y] and [x < y] on numbers: both are false on [NaN]. *)
Definition eqb (x y : number) : bool :=
  match x, y with
  | Fin a, Fin b => Qeq_bool a b
  | Inf s, Inf s' => Bool.eqb s s'
  | _, _ => false
  end.

Definition ltb (x y : number) : bool := gtb y x.

(** [v || 0] on a count that may be absent: [undefined], [null] and 0
    all give 0. *)
Definition orZero (v : option Z) : number :=
  match v with
  | Some z => ofZ z
  | None => ofZ 0
  end.

(** The text of [Math.round(x)] in a template literal: the nearest
    integer, halves towards positive infinity; the decimal digits are
    those of the language for an integer below 10^21 in magnitude. *)
Definition roundToString (x : number) : string :=
  match x with
  | NaN => "NaN"
  | Inf false => "Infinity"
  | Inf true => "-Infinity"
  | Fin q => NilZero.string_of_int (Z.to_int (Qfloor (q + (1 # 2))))
  end.

(** [Array.from(new Set(xs))]: the first occurrence of each string, in
    the order of insertion. *)
Fixpoint setFrom (seen : list string) (xs : list string) : list string :=
  match xs with
  | [] => []
  | x :: xs' =>
      if existsb (String.eqb x) seen then setFrom seen xs'
      else x :: setFrom (x :: seen) xs'
  end.

(** [xs.find(p)]. *)
Fixpoint find {A : Type} (p : A -> bool) (xs : list A) : option A :=
  match xs with
  | [] => None
  | x :: xs' => if p x then Some x else find p xs'
  end.

(** [a === b] on strings that may be [undefined]. *)
Definition sameString (a b : option string) : bool :=
  match a, b with
  | Some x, Some y => String.eqb x y
  | None, None => true
  | _, _ => false
  end.

(** [v || 0] on a coordinate that may be absent: [undefined], [NaN] and 0
    all give 0. *)
Definition orZeroNumber (v : option number) : number :=
  match v with
  | Some (Fin q) => if isZero q then ofZ 0 else Fin q
  | Some (Inf i) => Inf i
  | Some NaN | None => ofZ 0
  end.

(** What evaluating an expression completes with: a value, or a thrown
    [TypeError]. *)
Inductive completion (A : Type) : Type :=
| Return : A -> completion A
| ThrowTypeError : completion A.

Arguments Return {A} _.
Arguments ThrowTypeError {A}.

End JS.

Declare Scope num_scope.
Delimit Scope num_scope with num.
Bind Scope num_scope with JS.number.
Infix "+" := JS.add : num_scope.
Infix "-" := JS.sub : num_scope.
Infix "*" := JS.mul : num_scope.
Infix "/" := JS.div : num_scope.
Infix "<=?" := JS.leb : num_scope.
Infix ">?" := JS.gtb : num_scope.

(** ** Types from the backend contract *)

(** A node as the payload carries it.  [id] and [type] are required by the
    contract; a malformed node lacks one of them ([None]).  The optional
    fields may be absent or [null] ([None]).  [event_id] is the field the
    component derives; after enrichment it is a string or [undefined]. *)
Record GraphNode : Type := mkNode {
  id : option string;
  type : option string;
  label : string;
  ring : Z;
  topic : option string;
  starts_at : option string;
  score : Q;
  social_count : option Z;
  poster_url : option string;
  event_id : option string
}.

(** ** Layout constants *)

Record Band : Type := mkBand { min : JS.number; max : JS.number; spanSec : JS.number }.

Definition RING_BANDS : list Band :=
  [ mkBand (JS.ofZ 130) (JS.ofZ 190) (JS.ofZ (24 * 3600));      (* Today *)
    mkBand (JS.ofZ 210) (JS.ofZ 290) (JS.ofZ (7 * 24 * 3600));  (* Next 7 days *)
    mkBand (JS.ofZ 310) (JS.ofZ 390) (JS.ofZ 0) ].              (* Later (scaled to horizon) *)

(** [RING_BANDS[i]]; the three indices the component uses are in range. *)
Definition RING_BANDS_at (i : nat) : Band :=
  nth i RING_BANDS (mkBand JS.NaN JS.NaN JS.NaN).

Definition TOPIC_COLORS : list string :=
  [ "#1b9e77"; "#d95f02"; "#7570b3"; "#e7298a";
    "#66a61e"; "#e6ab02"; "#a6761d"; "#666666" ]%string.

Definition OTHER_TOPIC_COLOR : string := "#93c5fd".

(** ** Utilities *)

(** [hashStr]: [h = ((h << 5) - h + s.charCodeAt(i)) | 0] over the string. *)
Fixpoint hashStr_from (h : Z) (s : string) : Z :=
  match s with
  | EmptyString => h
  | String c s' => hashStr_from (JS.toInt32 (JS.shl h 5 - h + JS.charCode c)) s'
  end.

Definition hashStr (s : string) : Z := hashStr_from 0 s.

(** [topicColor]; the result is [None] where the array read
    [TOPIC_COLORS[idx]] would be [undefined]. *)
Definition topicColor (topic : option string) : option string :=
  if negb (JS.truthy topic) then Some OTHER_TOPIC_COLOR
  else
    let t := JS.trim (JS.toString topic) in
    if (String.length t =? 0)%nat then Some OTHER_TOPIC_COLOR
    else if String.eqb (JS.toLowerCase t) "other" then Some OTHER_TOPIC_COLOR
    else
      let idx := JS.Math_abs (hashStr t) mod Z.of_nat (List.length TOPIC_COLORS) in
      nth_error TOPIC_COLORS (Z.to_nat idx).

(** ** The component *)

Section RadialEgoGraph.

(** The host's [Date.parse], yielding a time value in milliseconds or
    [NaN] ([None]), and its [encodeURIComponent]. *)
Variable Date_parse : string -> option Z.
Variable encodeURIComponent : string -> string.

(** What the parent's [onEventClick] callback does is not the component's
    business: its outcome is an opaque [Action]. *)
Variable Action : Type.

Definition parseTime (s : string) : JS.number :=
  match Date_parse s with
  | Some z => JS.ofZ z
  | None => JS.NaN
  end.

(** [n.type === "event"] *)
Definition isEvent (n : GraphNode) : bool :=
  match type n with
  | Some t => String.eqb t "event"
  | None => false
  end.

(** The enrichment of the fetched nodes: the derived [event_id] and the
    [poster_url] defaulted to [null]. *)
Definition enrich (n : GraphNode) : GraphNode :=
  let event_id :=
    if isEvent n then
      let idStr := JS.toString (id n) in
      Some (if JS.startsWith idStr "event:" then JS.slice 6 idStr else idStr)
    else None in
  {| id := id n; type := type n; label := label n; ring := ring n;
     topic := topic n; starts_at := starts_at n; score := score n;
     social_count := social_count n;
     poster_url := poster_url n;
     event_id := event_id |}.

Definition enriched (nodes : list GraphNode) : list GraphNode := map enrich nodes.

(** Top 10 recommendations by PPR score. *)
Definition eventNodes (nodes : list GraphNode) : list GraphNode :=
  let evs := filter isEvent nodes in
  let evs := JS.sort (fun a b => (score b - score a)%Q) evs in
  firstn 10 evs.

Local Open Scope num_scope.

(** Continuous time -> radius: the horizon, for [Date.now() = now]. *)
Definition horizonSec (now : Z) (eventNodes : list GraphNode) : JS.number :=
  let fut :=
    map (fun ts => (ts - JS.ofZ now) / JS.ofZ 1000)
      (filter (fun ts => negb (JS.isNaN ts) && (ts >? JS.ofZ now))
         (map (fun n => parseTime (JS.orEmpty (starts_at n))) eventNodes)) in
  JS.Math_max (JS.ofZ (24 * 3600) :: fut ++ [JS.ofZ (24 * 3600)]).

(** [radiusForTime], for [Date.now() = now] and the memoised horizon. *)
Definition radiusForTime (now : Z) (horizonSec : JS.number) (n : GraphNode) : JS.number :=
  let ts := parseTime (JS.orEmpty (starts_at n)) in
  if JS.isNaN ts then max (RING_BANDS_at 2)
  else
    let dt := JS.Math_max [JS.ofZ 0; (ts - JS.ofZ now) / JS.ofZ 1000] in
    if dt <=? JS.ofZ (24 * 3600) then
      let b := RING_BANDS_at 0 in
      let t := dt / spanSec b in
      min b + t * (max b - min b)
    else if dt <=? JS.ofZ (7 * 24 * 3600) then
      let b := RING_BANDS_at 1 in
      let t := (dt - JS.ofZ (24 * 3600)) / (spanSec b - JS.ofZ (24 * 3600)) in
      min b + t * (max b - min b)
    else
      let b := RING_BANDS_at 2 in
      let span := horizonSec in
      let t := if span >? JS.ofZ 0 then JS.Math_min [JS.ofZ 1; dt / span]
               else JS.Fin (1 # 2) in
      min b + t * (max b - min b).

(** [angleForEvent]: reading [length] off an absent id throws. *)
Definition angleForEvent (n : GraphNode) : JS.completion JS.number :=
  match id n with
  | None => JS.ThrowTypeError
  | Some s =>
      let h := JS.ofZ (JS.Math_abs (hashStr s)) in          (* stable seed *)
      let phi := JS.Fin (61803398875 # 100000000000) in     (* golden ratio fraction *)
      let a := JS.mod1 (h * phi) * JS.Math_PI * JS.ofZ 2 in (* 0..2pi *)
      JS.Return a
  end.

(** Size scale over the scores of the working set. *)
Definition nodeValScale (eventNodes : list GraphNode) : JS.number -> JS.number :=
  let scores := map (fun n => JS.Fin (score n)) eventNodes in
  fun s =>
    JS.ofZ 60 * (JS.Fin (2 # 5)
                 + (s - JS.Math_min scores) / (JS.Math_max scores - JS.Math_min scores)).

Local Close Scope num_scope.

(** What a click can cause: the parent's callback is invoked, or the
    location is assigned. *)
Inductive Effect : Type :=
| Invoke : Action -> Effect
| Navigate : string -> Effect.

(** Click navigation; [None] is a click that causes nothing. *)
Definition handleNodeClick (onEventClick : option (string -> Action))
    (n : GraphNode) : option Effect :=
  if isEvent n && JS.truthy (event_id n) then
    match onEventClick with
    | Some callback => Some (Invoke (callback (JS.orEmpty (event_id n))))
    | None =>
        Some (Navigate ("/events/eventpage/"
                        ++ encodeURIComponent (JS.toString (event_id n))))
    end
  else None.

End RadialEgoGraph.

(** ** Colours *)

Definition clamp (v lo hi : JS.number) : JS.number :=
  JS.Math_max [lo; JS.Math_min [hi; v]].

Record RGB : Type := mkRGB { r : Z; g : Z; b : Z }.

Record HSL : Type := mkHSL { h : JS.number; s : JS.number; l : JS.number }.

(** A hexadecimal digit of either case, as [[a-f\d]] under the [i] flag. *)
Definition hexDigit (c : ascii) : option Z :=
  let n := JS.charCode c in
  if (48 <=? n) && (n <=? 57) then Some (n - 48)
  else if (97 <=? n) && (n <=? 102) then Some (n - 87)
  else if (65 <=? n) && (n <=? 70) then Some (n - 55)
  else None.

(** [parseInt(m, 16)] on a match of two hexadecimal digits. *)
Definition hexPair (c1 c2 : ascii) : option Z :=
  match hexDigit c1, hexDigit c2 with
  | Some d1, Some d2 => Some (d1 * 16 + d2)
  | _, _ => None
  end.

(** [hexToRgb]: an optional [#] and six hexadecimal digits, to the end of
    the string; [None] is [null]. *)
Definition hexToRgb (hex : string) : option RGB :=
  let digits :=
    match hex with
    | String c rest => if Ascii.eqb c "#" then rest else hex
    | EmptyString => hex
    end in
  match list_ascii_of_string digits with
  | [r1; r2; g1; g2; b1; b2] =>
      match hexPair r1 r2, hexPair g1 g2, hexPair b1 b2 with
      | Some r, Some g, Some b => Some (mkRGB r g b)
      | _, _, _ => None
      end
  | _ => None
  end.

Local Open Scope num_scope.

Definition rgbToHsl (r g b : JS.number) : HSL :=
  let r := r / JS.ofZ 255 in
  let g := g / JS.ofZ 255 in
  let b := b / JS.ofZ 255 in
  let max := JS.Math_max [r; g; b] in
  let min := JS.Math_min [r; g; b] in
  let l := (max + min) / JS.ofZ 2 in
  if negb (JS.eqb max min) then
    let d := max - min in
    let s := if l >? JS.Fin (1 # 2) then d / (JS.ofZ 2 - max - min) else d / (max + min) in
    let h :=
      if JS.eqb max r then (g - b) / d + (if JS.ltb g b then JS.ofZ 6 else JS.ofZ 0)
      else if JS.eqb max g then (b - r) / d + JS.ofZ 2
      else if JS.eqb max b then (r - g) / d + JS.ofZ 4
      else JS.ofZ 0 in
    let h := h / JS.ofZ 6 in
    mkHSL (h * JS.ofZ 360) s l
  else mkHSL (JS.ofZ 0 * JS.ofZ 360) (JS.ofZ 0) l.

Definition hslToCss (h s l : JS.number) : string :=
  let ss := clamp s (JS.ofZ 0) (JS.ofZ 1) * JS.ofZ 100 in
  let ll := clamp l (JS.ofZ 0) (JS.ofZ 1) * JS.ofZ 100 in
  ("hsl(" ++ JS.roundToString h ++ ", " ++ JS.roundToString ss ++ "%, "
   ++ JS.roundToString ll ++ "%)")%string.

Record Paint : Type := mkPaint { color : string; alpha : JS.number }.

Definition applySaturation (hex : string) (sat : JS.number) : Paint :=
  match hexToRgb hex with
  | None => mkPaint hex (JS.ofZ 1)
  | Some rgb =>
      let hsl := rgbToHsl (JS.ofZ (r rgb)) (JS.ofZ (g rgb)) (JS.ofZ (b rgb)) in
      let color := hslToCss (h hsl) (clamp sat (JS.Fin (2 # 5)) (JS.ofZ 1)) (l hsl) in
      mkPaint color (JS.ofZ 1)
  end.

(** The saturation [drawNode] asks for: [clamp((n.social_count || 0) / 5, 0.4, 1.0)]. *)
Definition socialSaturation (n : GraphNode) : JS.number :=
  clamp (JS.orZero (social_count n) / JS.ofZ 5) (JS.Fin (2 # 5)) (JS.ofZ 1).

Local Close Scope num_scope.

(** ** The legend *)

Section Legend.

(** The host's [String.prototype.localeCompare], a number. *)
Variable localeCompare : string -> string -> Q.

(** The topic a node is listed under: [(n.topic || "Other").trim()]. *)
Definition legendTopic (n : GraphNode) : string :=
  JS.trim (if JS.truthy (topic n) then JS.toString (topic n) else "Other"%string).

Definition topicList (eventNodes : list GraphNode) : list string :=
  let set := JS.setFrom [] (map legendTopic eventNodes) in
  JS.sort (fun a b => localeCompare a b) set.

(** [Math.max(0, topicList.length - 5)], on integers. *)
Definition moreCount (topicList : list string) : Z :=
  Z.max 0 (Z.of_nat (List.length topicList) - 5).

(** The chips shown: [topicList.slice(0, 5)]. *)
Definition topicChips (topicList : list string) : list string := firstn 5 topicList.

End Legend.

(** ** Drawing *)

(** What the drawing callbacks do to the canvas context, in order.  A style
    that is [undefined] is [None].  [font px families] stands for the
    assignment of the text of [px], then [px ], then [families]. *)
Module Canvas.

Inductive Op : Type :=
| save : Op
| restore : Op
| beginPath : Op
| arc : JS.number -> JS.number -> JS.number -> JS.number -> JS.number -> Op
| fillStyle : option string -> Op
| fill : Op
| lineWidth : JS.number -> Op
| strokeStyle : string -> Op
| stroke : Op
| font : JS.number -> string -> Op
| textAlign : string -> Op
| textBaseline : string -> Op
| fillText : string -> JS.number -> JS.number -> Op.

End Canvas.

(** The names [useThemeColors] resolves. *)
Definition colorVariables : list string :=
  [ "--color-graph-bg"; "--color-graph-guide"; "--color-graph-label";
    "--color-graph-node-label"; "--color-graph-node-poster-outline";
    "--color-graph-node-outline"; "--color-graph-legend-bg";
    "--color-graph-legend-border"; "--color-graph-legend-shadow";
    "--color-graph-legend-header"; "--color-graph-legend-body";
    "--color-graph-legend-chip-bg"; "--color-graph-legend-chip-border" ]%string.

(** The resolved colours: an object from names to strings, in the order
    of assignment. *)
Definition ThemeColors : Type := list (string * string).

(** [getThemeColors]; [styles] is the element's
    [getComputedStyle(...).getPropertyValue], the empty string on a name
    that is not set. *)
Definition getThemeColors (styles : string -> string) : ThemeColors :=
  map (fun name => (name, JS.trim (styles name))) colorVariables.

(** [colors[name]]; [None] is [undefined]. *)
Fixpoint themeColor (colors : ThemeColors) (name : string) : option string :=
  match colors with
  | [] => None
  | (k, v) :: rest => if String.eqb k name then Some v else themeColor rest name
  end.

(** [themeColors?.[name] ?? fallback] *)
Definition themed (themeColors : option ThemeColors) (name fallback : string) : string :=
  match themeColors with
  | Some colors =>
      match themeColor colors name with
      | Some v => v
      | None => fallback
      end
  | None => fallback
  end.

(** [n.poster_url && n.poster_url.trim() !== ""], as a truth value. *)
Definition hasPoster (n : GraphNode) : bool :=
  JS.truthy (poster_url n)
  && negb (String.eqb (JS.trim (JS.toString (poster_url n))) "").

Local Open Scope num_scope.

(** [tooltip] *)
Definition tooltip (n : GraphNode) : string :=
  if negb (isEvent n) then label n
  else (label n ++ String (ascii_of_nat 10) "Click to open details")%string.

(** [drawNode], for the node [n] at the simulated position [(x, y)]. *)
Definition drawNode (eventNodes : list GraphNode) (themeColors : option ThemeColors)
    (n : GraphNode) (x y : option JS.number) (globalScale : JS.number) : list Canvas.Op :=
  let size := nodeValScale eventNodes (JS.Fin (score n)) in
  let baseColor := topicColor (topic n) in
  let sat := socialSaturation n in
  let color :=
    match baseColor with
    | Some hex => Some (color (applySaturation hex sat))
    | None => None
    end in
  [ Canvas.save;
    Canvas.beginPath;
    Canvas.arc (JS.orZeroNumber x) (JS.orZeroNumber y) size (JS.ofZ 0) (JS.ofZ 2 * JS.Math_PI);
    Canvas.fillStyle color;
    Canvas.fill;
    Canvas.lineWidth (if hasPoster n then JS.ofZ 3 else JS.Fin (3 # 2));
    Canvas.strokeStyle
      (if hasPoster n then themed themeColors "--color-graph-node-poster-outline" "#1a1a1a"
       else themed themeColors "--color-graph-node-outline" "#ffffff");
    Canvas.stroke ]
  ++ (if isEvent n then
        [ Canvas.fillStyle (Some (themed themeColors "--color-graph-node-label" "#222"));
          Canvas.font (JS.Math_max [JS.ofZ 11; JS.ofZ 14 / globalScale])
            "Inter, ui-sans-serif, system-ui";
          Canvas.textAlign "center";
          Canvas.textBaseline "top";
          Canvas.fillText (label n) (JS.orZeroNumber x)
            (JS.orZeroNumber y + size + JS.ofZ 6) ]
      else [])
  ++ [ Canvas.restore ].

(** [drawGuides]; [isDark] is what the component read from the storage
    under [vis-theme]. *)
Definition drawGuides (isDark : option string) (themeColors : option ThemeColors)
    (globalScale : JS.number) : list Canvas.Op :=
  let ringMids :=
    [ (min (RING_BANDS_at 0) + max (RING_BANDS_at 0)) / JS.ofZ 2;
      (min (RING_BANDS_at 1) + max (RING_BANDS_at 1)) / JS.ofZ 2;
      (min (RING_BANDS_at 2) + max (RING_BANDS_at 2)) / JS.ofZ 2 ] in
  let labels := [ "Today"; "Next 7 days"; "Later" ]%string in
  [ Canvas.save;
    Canvas.lineWidth (JS.Math_max [JS.ofZ 1; JS.ofZ 2 / globalScale]);
    Canvas.strokeStyle (if JS.truthy isDark then "#374151" else "#eceef2")%string ]
  ++ flat_map
       (fun r => [ Canvas.beginPath;
                   Canvas.arc (JS.ofZ 0) (JS.ofZ 0) r (JS.ofZ 0) (JS.ofZ 2 * JS.Math_PI);
                   Canvas.stroke ])
       ringMids
  ++ [ Canvas.fillStyle
         (Some (if negb (JS.truthy isDark)
                then themed themeColors "--color-graph-label" "#80859a"
                else "#80859a"%string));
       Canvas.font (JS.Math_max [JS.ofZ 10; JS.ofZ 12 / globalScale]) "Inter, ui-sans-serif" ]
  ++ flat_map
       (fun '(lab, r) => [ Canvas.textAlign "left";
                           Canvas.textBaseline "middle";
                           Canvas.fillText lab (JS.ofZ 0 + r + JS.ofZ 10) (JS.ofZ 0) ])
       (combine labels ringMids)
  ++ [ Canvas.restore ].

(** The radius the collision force takes for the simulated node [n]. *)
Definition collideRadius (eventNodes : list GraphNode) (n : GraphNode) : JS.number :=
  let g := JS.find (fun e => JS.sameString (id e) (id n)) eventNodes in
  let r :=
    match g with
    | Some g => nodeValScale eventNodes (JS.Fin (score g))
    | None => JS.ofZ 10
    end in
  r + JS.ofZ 8.

Local Close Scope num_scope.

(** ** The theme toggle *)

Module ThemeToggle.

Definition STORAGE_KEY : string := "vis-theme".

(** What the toggle sees and changes of the browser: the value stored
    under [STORAGE_KEY], the answer of the [prefers-color-scheme: dark]
    media query ([None] without [matchMedia]), and the [dark] class of the
    root element. *)
Record Browser : Type := mkBrowser {
  stored : option string;
  prefersDark : option bool;
  darkClass : bool
}.

(** [resolveInitialTheme]; there is no [window] on [None]. *)
Definition resolveInitialTheme (window : option Browser) : bool :=
  match window with
  | None => false
  | Some w =>
      if JS.truthy (stored w) then String.eqb (JS.toString (stored w)) "dark"
      else match prefersDark w with
           | Some matches => matches
           | None => false
           end
  end.

(** The effect on [isDark]: the class of the root and the stored value. *)
Definition persist (isDark : bool) (w : Browser) : Browser :=
  {| stored := Some (if isDark then "dark" else "light")%string;
     prefersDark := prefersDark w;
     darkClass := isDark |}.

Inductive Event : Type :=
| Click : Event
| MediaChange : bool -> Event.

(** The component's state, [isDark], with the browser. *)
Definition State : Type := (bool * Browser)%type.

Definition mount (w : Browser) : State :=
  let isDark := resolveInitialTheme (Some w) in
  (isDark, persist isDark w).

(** A click on the button, or a change of the media query.  The media
    listener is there only with [matchMedia], and its handler respects a
    stored choice; the effect runs when [isDark] has changed. *)
Definition handle (st : State) (e : Event) : State :=
  let '(isDark, w) := st in
  match e with
  | Click => (negb isDark, persist (negb isDark) w)
  | MediaChange matches =>
      match prefersDark w with
      | None => st
      | Some _ =>
          let w' := {| stored := stored w; prefersDark := Some matches;
                       darkClass := darkClass w |} in
          if JS.truthy (stored w) then (isDark, w')       (* respect explicit choice *)
          else if Bool.eqb matches isDark then (isDark, w')
          else (matches, persist matches w')
      end
  end.

Definition run (w : Browser) (events : list Event) : State :=
  fold_left handle events (mount w).

(** The state after every step: the stored value and the root's class say
    what [isDark] says. *)
Definition agrees (st : State) : Prop :=
  stored (snd st) = Some (if fst st then "dark" else "light")%string
  /\ darkClass (snd st) = fst st.

(** The clicks among the events. *)
Definition clicks (events : list Event) : list Event :=
  filter (fun e => match e with Click => true | MediaChange _ => false end) events.

End ThemeToggle.

(** The text of a colour in hue, saturation and lightness. *)
Definition cssHsl (hue sat light : Z) : string :=
  ("hsl(" ++ NilZero.string_of_int (Z.to_int hue) ++ ", "
   ++ NilZero.string_of_int (Z.to_int sat) ++ "%, "
   ++ NilZero.string_of_int (Z.to_int light) ++ "%)")%string.

(** ** A host to run the component on

    [ISO.parse] reads the UTC form [YYYY-MM-DDTHH:mm:ssZ] of the
    language's date-time string format and is [NaN] ([None]) on anything
    else; it is the [Date.parse] the examples below are evaluated with. *)

Module ISO.

Definition digit (c : ascii) : option Z :=
  let n := JS.charCode c in
  if (48 <=? n) && (n <=? 57) then Some (n - 48) else None.

Fixpoint digits (acc : Z) (cs : list ascii) : option Z :=
  match cs with
  | [] => Some acc
  | c :: cs' =>
      match digit c with
      | Some d => digits (10 * acc + d) cs'
      | None => None
      end
  end.

Definition isLeap (y : Z) : bool :=
  ((y mod 4 =? 0) && negb (y mod 100 =? 0)) || (y mod 400 =? 0).

Definition daysInMonth (y m : Z) : Z :=
  if m =? 2 then (if isLeap y then 29 else 28)
  else if (m =? 4) || (m =? 6) || (m =? 9) || (m =? 11) then 30
  else 31.

(** Days from 1970-01-01 to the civil date [y]-[m]-[d]. *)
Definition daysFromCivil (y m d : Z) : Z :=
  let y' := if m <=? 2 then y - 1 else y in
  let era := y' / 400 in
  let yoe := y' - era * 400 in
  let doy := (153 * (if 2 <? m then m - 3 else m + 9) + 2) / 5 + d - 1 in
  let doe := yoe * 365 + yoe / 4 - yoe / 100 + doy in
  era * 146097 + doe - 719468.

Definition parse (s : string) : option Z :=
  match list_ascii_of_string s with
  | [y1; y2; y3; y4; p1; m1; m2; p2; d1; d2; pT; h1; h2; p3; i1; i2; p4; s1; s2; pZ] =>
      match digits 0 [y1; y2; y3; y4], digits 0 [m1; m2], digits 0 [d1; d2],
            digits 0 [h1; h2], digits 0 [i1; i2], digits 0 [s1; s2] with
      | Some y, Some m, Some d, Some h, Some i, Some sec =>
          if Ascii.eqb p1 "-" && Ascii.eqb p2 "-" && Ascii.eqb pT "T"
             && Ascii.eqb p3 ":" && Ascii.eqb p4 ":" && Ascii.eqb pZ "Z"
             && (1 <=? m) && (m <=? 12) && (1 <=? d) && (d <=? daysInMonth y m)
             && (h <=? 23) && (i <=? 59) && (sec <=? 59)
          then Some (((daysFromCivil y m d * 24 + h) * 60 + i) * 60 * 1000 + sec * 1000)
          else None
      | _, _, _, _, _, _ => None
      end
  | _ => None
  end.

End ISO.

(** ** Quantities the properties are stated with *)

(** The clamped delay [dt] of [radiusForTime], in seconds, for a start at
    the time value [ts]. *)
Definition secondsUntil (now ts : Z) : Q :=
  let x := ((inject_Z ts - inject_Z now) / 1000)%Q in
  if Qle_bool 0 x then x else 0%Q.

(** The interpolation fraction of the Later band, whatever the horizon. *)
Definition laterFraction (hz : JS.number) (dt : Q) : JS.number :=
  if (hz >? JS.Fin 0)%num then JS.Math_min [JS.Fin 1; (JS.Fin dt / hz)%num]
  else JS.Fin (1 # 2).

(** The delays, in seconds, of the nodes that start after [now]. *)
Definition futureEventDeltas (Date_parse : string -> option Z) (now : Z)
    (nodes : list GraphNode) : list Q :=
  flat_map
    (fun n =>
       match Date_parse (JS.orEmpty (starts_at n)) with
       | Some ts => if (now <? ts)%Z then [((inject_Z ts - inject_Z now) / 1000)%Q] else []
       | None => []
       end)
    nodes.

(** The comparator of the ranking: descending by [key]. *)
Definition descending {A : Type} (key : A -> Q) (a b : A) : Q := (key b - key a)%Q.

(** [a] may stand in front of [b]. *)
Definition ranksBefore {A : Type} (key : A -> Q) (a b : A) : Prop := (key b <= key a)%Q.

(** The elements whose key is [v]. *)
Definition keyed {A : Type} (key : A -> Q) (v : Q) (a : A) : bool := Qeq_bool (key a) v.

(** A node with its start replaced. *)
Definition withStartsAt (start : GraphNode -> option string) (n : GraphNode) : GraphNode :=
  {| id := id n; type := type n; label := label n; ring := ring n;
     topic := topic n; starts_at := start n; score := score n;
     social_count := social_count n; poster_url := poster_url n;
     event_id := event_id n |}.

(** The node carries a type. *)
Definition hasType (n : GraphNode) : bool :=
  match type n with
  | Some _ => true
  | None => false
  end.

(** ** The bands as the specification words them

    Follows the spec's words: "within a band, linear interpolation by
    fractional position", the position of [dt] within its band being the
    share of the band's length that lies before it. *)
Definition spec_bandPosition (lo hi dt : Q) : Q := ((dt - lo) / (hi - lo))%Q.

Definition spec_radius (horizon dt : Q) : Q :=
  (if Qle_bool dt 86400 then 130 + spec_bandPosition 0 86400 dt * (190 - 130)
   else if Qle_bool dt 604800 then
     210 + spec_bandPosition 86400 604800 dt * (290 - 210)
   else 310 + spec_bandPosition 604800 horizon dt * (390 - 310))%Q.

(** ** Example payloads *)

(** An event node with the optional fields absent but the start. *)
Definition eventAt (i : string) (s : Q) (start : option string) : GraphNode :=
  mkNode (Some i) (Some "event"%string) i 0 None start s None None None.

(** Noon of 4 October 2025, as [Date.now()]. *)
Definition noon : Z := 1759579200000.

Definition inTwoHours : GraphNode := eventAt "event:1" 3 (Some "2025-10-04T14:00:00Z"%string).
Definition inOneDay : GraphNode := eventAt "event:2" 3 (Some "2025-10-05T12:00:00Z"%string).
Definition inOneDayAndASecond : GraphNode :=
  eventAt "event:3" 3 (Some "2025-10-05T12:00:01Z"%string).
Definition inTenDaysAndAHalf : GraphNode :=
  eventAt "event:4" 2 (Some "2025-10-15T00:00:00Z"%string).
Definition inTwoWeeks : GraphNode := eventAt "event:5" 1 (Some "2025-10-18T12:00:00Z"%string).
Definition lastYear : GraphNode := eventAt "event:6" 1 (Some "2024-10-04T12:00:00Z"%string).
Definition undated : GraphNode := eventAt "event:7" 1 None.
Definition misdated : GraphNode := eventAt "event:8" 1 (Some "next friday"%string).

(** Fifteen event nodes of strictly descending scores, and a person. *)
Definition fifteen : list GraphNode :=
  [ eventAt "event:a" 15 None; eventAt "event:b" 14 None; eventAt "event:c" 13 None;
    eventAt "event:d" 12 None; eventAt "event:e" 11 None; eventAt "event:f" 10 None;
    eventAt "event:g" 9 None; eventAt "event:h" 8 None; eventAt "event:i" 7 None;
    eventAt "event:j" 6 None; eventAt "event:k" 5 None; eventAt "event:l" 4 None;
    eventAt "event:m" 3 None; eventAt "event:n" 2 None; eventAt "event:o" 1 None ]%string.

Definition aPerson : GraphNode :=
  mkNode (Some "person:7"%string) (Some "person"%string) "Ada" (-1) None None 99 None None None.

(** Eleven event nodes given in ascending order of score but for the two
    last, which tie for the tenth place. *)
Definition tiedForTenth : list GraphNode :=
  [ eventAt "event:a" 11 None; eventAt "event:b" 12 None; eventAt "event:c" 13 None;
    eventAt "event:d" 14 None; eventAt "event:e" 15 None; eventAt "event:f" 16 None;
    eventAt "event:g" 17 None; eventAt "event:h" 18 None; eventAt "event:i" 19 None;
    eventAt "event:j" 5 None; eventAt "event:k" 5 None ]%string.

(** Three event nodes of score 5 each. *)
Definition threeFives : list GraphNode :=
  [ eventAt "event:a" 5 None; eventAt "event:b" 5 None; eventAt "event:c" 5 None ]%string.

(** An event node without an id, and a node without a type. *)
Definition withoutId : GraphNode :=
  mkNode None (Some "event"%string) "Concert" 0 None None 2 None None None.

Definition withoutType : GraphNode :=
  mkNode (Some "event:10"%string) None "Lecture" 0 None None 9 None None None.

(** An event node whose id is the prefix [event:] and nothing more. *)
Definition barePrefix : GraphNode := eventAt "event:" 4 None.

(** The count [drawNode] reads: [n.social_count || 0]. *)
Definition socialCount (n : GraphNode) : Z :=
  match social_count n with
  | Some k => k
  | None => 0
  end.

(** The hash without the wrap-around: the polynomial in 31 of the code
    units, over the integers. *)
Fixpoint hashPolynomial_from (z : Z) (s : string) : Z :=
  match s with
  | EmptyString => z
  | String c s' => hashPolynomial_from (31 * z + JS.charCode c) s'
  end.

(** * Properties *)

(** ** Numbers *)

Module NumFacts.

Import JS.

Lemma Qle_bool_false (a b : Q) : Qle_bool a b = false <-> (b < a)%Q.
Proof.
  split; intro H.
  - destruct (Qlt_le_dec b a) as [Hlt | Hle]; [exact Hlt |].
    apply Qle_bool_iff in Hle. congruence.
  - destruct (Qle_bool a b) eqn:E; [| reflexivity].
    apply Qle_bool_iff in E. exfalso. apply (Qlt_not_le _ _ H E).
Qed.

Lemma isZero_false (q : Q) : ~ (q == 0)%Q -> isZero q = false.
Proof.
  intro H. unfold isZero. destruct (Qeq_bool q 0) eqn:E; [| reflexivity].
  apply Qeq_bool_iff in E. contradiction.
Qed.

Lemma isZero_true (q : Q) : (q == 0)%Q -> isZero q = true.
Proof. intro H. unfold isZero. apply Qeq_bool_iff. exact H. Qed.

Lemma div_Fin (a b : Q) : ~ (b == 0)%Q -> div (Fin a) (Fin b) = Fin (a / b).
Proof. intro H. unfold div. rewrite (isZero_false b H). reflexivity. Qed.

Lemma div_zero_zero (a b : Q) : (a == 0)%Q -> (b == 0)%Q -> div (Fin a) (Fin b) = NaN.
Proof.
  intros Ha Hb. unfold div. rewrite (isZero_true b Hb), (isZero_true a Ha). reflexivity.
Qed.

Lemma Math_max_pair (a b : Q) :
  Math_max [Fin a; Fin b] = if Qle_bool a b then Fin b else Fin a.
Proof. reflexivity. Qed.

Lemma Math_min_pair (a b : Q) :
  Math_min [Fin a; Fin b] = if Qle_bool a b then Fin a else Fin b.
Proof. reflexivity. Qed.

Lemma gtb_Fin (a b : Q) : gtb (Fin a) (Fin b) = true <-> (b < a)%Q.
Proof.
  unfold gtb, leb. rewrite andb_true_iff, negb_true_iff, Qle_bool_false, Qle_bool_iff.
  split; [tauto | intro H; split; [apply Qlt_le_weak |]; exact H].
Qed.

Lemma gtb_Fin_false (a b : Q) : gtb (Fin a) (Fin b) = false <-> (a <= b)%Q.
Proof.
  split; intro H.
  - destruct (Qlt_le_dec b a) as [Hlt | Hle]; [| exact Hle].
    apply gtb_Fin in Hlt. congruence.
  - destruct (gtb (Fin a) (Fin b)) eqn:E; [| reflexivity].
    apply gtb_Fin in E. exfalso. apply (Qlt_not_le _ _ E H).
Qed.

Lemma Math_max_Fin (q : Q) (qs : list Q) :
  exists m : Q,
    Math_max (map Fin (q :: qs)) = Fin m /\ In m (q :: qs)
    /\ forall x, In x (q :: qs) -> (x <= m)%Q.
Proof.
  revert q. induction qs as [| q' qs IH]; intro q.
  - exists q. split; [reflexivity |]. split; [left; reflexivity |].
    intros x [Hx | []]. subst x. apply Qle_refl.
  - destruct (IH q') as [m [Hm [Hin Hle]]].
    change (Math_max (map Fin (q :: q' :: qs)))
      with (max2 (Fin q) (Math_max (map Fin (q' :: qs)))).
    rewrite Hm. change (max2 (Fin q) (Fin m)) with (if Qle_bool q m then Fin m else Fin q).
    destruct (Qle_bool q m) eqn:E.
    + apply Qle_bool_iff in E. exists m. split; [reflexivity |].
      split; [right; exact Hin |].
      intros x [Hx | Hx]; [subst x; exact E | apply Hle; exact Hx].
    + apply Qle_bool_false in E. exists q. split; [reflexivity |].
      split; [left; reflexivity |].
      intros x [Hx | Hx]; [subst x; apply Qle_refl |].
      apply Qle_trans with m; [apply Hle; exact Hx | apply Qlt_le_weak; exact E].
Qed.

Lemma Math_min_Fin (q : Q) (qs : list Q) :
  exists m : Q,
    Math_min (map Fin (q :: qs)) = Fin m /\ In m (q :: qs)
    /\ forall x, In x (q :: qs) -> (m <= x)%Q.
Proof.
  revert q. induction qs as [| q' qs IH]; intro q.
  - exists q. split; [reflexivity |]. split; [left; reflexivity |].
    intros x [Hx | []]. subst x. apply Qle_refl.
  - destruct (IH q') as [m [Hm [Hin Hle]]].
    change (Math_min (map Fin (q :: q' :: qs)))
      with (min2 (Fin q) (Math_min (map Fin (q' :: qs)))).
    rewrite Hm. change (min2 (Fin q) (Fin m)) with (if Qle_bool q m then Fin q else Fin m).
    destruct (Qle_bool q m) eqn:E.
    + apply Qle_bool_iff in E. exists q. split; [reflexivity |].
      split; [left; reflexivity |].
      intros x [Hx | Hx]; [subst x; apply Qle_refl |].
      apply Qle_trans with m; [exact E | apply Hle; exact Hx].
    + apply Qle_bool_false in E. exists m. split; [reflexivity |].
      split; [right; exact Hin |].
      intros x [Hx | Hx]; [subst x; apply Qlt_le_weak; exact E | apply Hle; exact Hx].
Qed.

Lemma gtb_ofZ (a b : Z) : gtb (ofZ a) (ofZ b) = (b <? a)%Z.
Proof.
  destruct (b <? a)%Z eqn:E.
  - apply gtb_Fin. rewrite <- Zlt_Qlt. apply Z.ltb_lt. exact E.
  - apply gtb_Fin_false. rewrite <- Zle_Qle. apply Z.ltb_ge. exact E.
Qed.

End NumFacts.

(** ** The host functions on examples *)

Example toInt32_wraps : JS.toInt32 (2 ^ 31) = (- 2 ^ 31)%Z /\ JS.toInt32 (- 2 ^ 31 - 1) = (2 ^ 31 - 1)%Z.
Proof. split; reflexivity. Qed.

Example trim_blanks : JS.trim "  Tech talks  " = "Tech talks"%string /\ JS.trim "   " = ""%string.
Proof. split; reflexivity. Qed.

Example toLowerCase_mixed : JS.toLowerCase "OtHeR" = "other"%string.
Proof. reflexivity. Qed.

Example hashStr_Music : hashStr "Music" = 74710533%Z.
Proof. reflexivity. Qed.

Example hashStr_wraps : hashStr "Tech talks" = (-1914647715)%Z.
Proof. vm_compute. reflexivity. Qed.

Example ISO_parse_noon :
  ISO.parse "2025-10-04T12:00:00Z" = Some noon
  /\ ISO.parse "1970-01-01T00:00:00Z" = Some 0%Z
  /\ ISO.parse "" = None /\ ISO.parse "2025-02-30T00:00:00Z" = None.
Proof. repeat split; reflexivity. Qed.

(** The derived [event_id]: the id without its [event:] prefix. *)
Example enrich_event_id :
  event_id (enrich inTwoHours) = Some "1"%string
  /\ event_id (enrich aPerson) = None
  /\ event_id (enrich withoutId) = Some "undefined"%string.
Proof. repeat split; reflexivity. Qed.

(** ** Time to radius *)

(** Division by the two band spans, for linear arithmetic. *)
Ltac band_spans :=
  unfold Qdiv in *;
  change (/ 86400)%Q with (1 # 86400)%Q in *;
  change (/ (604800 - 86400))%Q with (1 # 518400)%Q in *.

Section Radius.

Import JS NumFacts.

Variable Date_parse : string -> option Z.

Lemma secondsUntil_nonneg (now ts : Z) : (0 <= secondsUntil now ts)%Q.
Proof.
  unfold secondsUntil. cbv zeta.
  destruct (Qle_bool 0 _) eqn:E; [apply Qle_bool_iff in E; exact E | apply Qle_refl].
Qed.

Lemma radiusForTime_unparsed (now : Z) (hz : number) (n : GraphNode) :
  Date_parse (orEmpty (starts_at n)) = None ->
  radiusForTime Date_parse now hz n = Fin 390.
Proof.
  intro H. unfold radiusForTime, parseTime. rewrite H. reflexivity.
Qed.

Lemma radiusForTime_parsed (now : Z) (hz : number) (n : GraphNode) (ts : Z) :
  Date_parse (orEmpty (starts_at n)) = Some ts ->
  let dt := secondsUntil now ts in
  radiusForTime Date_parse now hz n =
    if Qle_bool dt 86400 then Fin (130 + dt / 86400 * (190 - 130))
    else if Qle_bool dt 604800 then
      Fin (210 + (dt - 86400) / (604800 - 86400) * (290 - 210))
    else
      (Fin 310 + (if hz >? Fin 0 then Math_min [Fin 1; Fin dt / hz] else Fin (1 # 2))
                 * Fin (390 - 310))%num.
Proof.
  intros H dt. unfold radiusForTime, parseTime. rewrite H.
  change (isNaN (ofZ ts)) with false. cbv iota.
  assert (Hdt : Math_max [ofZ 0; ((ofZ ts - ofZ now) / ofZ 1000)%num] = Fin dt).
  { unfold dt, secondsUntil. cbv zeta.
    change ((ofZ ts - ofZ now) / ofZ 1000)%num
      with (Fin ((inject_Z ts - inject_Z now) / 1000)).
    change (ofZ 0) with (Fin 0). rewrite Math_max_pair.
    destruct (Qle_bool 0 _); reflexivity. }
  rewrite Hdt. clear Hdt.
  change (Fin dt <=? ofZ (24 * 3600))%num with (Qle_bool dt 86400).
  change (Fin dt <=? ofZ (7 * 24 * 3600))%num with (Qle_bool dt 604800).
  destruct (Qle_bool dt 86400); [reflexivity |].
  destruct (Qle_bool dt 604800); reflexivity.
Qed.

Lemma laterFraction_Fin (H dt : Q) :
  (0 < H)%Q ->
  laterFraction (Fin H) dt = Fin (if Qle_bool 1 (dt / H) then 1 else dt / H)%Q.
Proof.
  intro HH. unfold laterFraction.
  assert (E : gtb (Fin H) (Fin 0) = true) by (apply gtb_Fin; exact HH).
  rewrite E. rewrite div_Fin.
  - rewrite Math_min_pair. destruct (Qle_bool 1 (dt / H)); reflexivity.
  - intro Hz. rewrite Hz in HH. apply (Qlt_irrefl _ HH).
Qed.

Lemma laterFraction_unit (hz : number) (dt : Q) :
  (0 <= dt)%Q ->
  exists t : Q, laterFraction hz dt = Fin t /\ (0 <= t <= 1)%Q.
Proof.
  intro Hdt. destruct hz as [| [|] | H].
  - exists (1 # 2). split; [reflexivity | split; discriminate].
  - exists (1 # 2). split; [reflexivity | split; discriminate].
  - exists 0%Q. split; [reflexivity | split; discriminate].
  - destruct (Qlt_le_dec 0 H) as [Hpos | Hneg].
    + rewrite (laterFraction_Fin H dt Hpos).
      eexists. split; [reflexivity |].
      destruct (Qle_bool 1 (dt / H)) eqn:E.
      * split; discriminate.
      * apply Qle_bool_false in E. split; [| apply Qlt_le_weak; exact E].
        apply Qle_shift_div_l; [exact Hpos |]. rewrite Qmult_0_l. exact Hdt.
    + exists (1 # 2). split; [| split; discriminate].
      unfold laterFraction.
      assert (E : gtb (Fin H) (Fin 0) = false) by (apply gtb_Fin_false; exact Hneg).
      rewrite E. reflexivity.
Qed.

End Radius.

(** C10.  [radiusForTime] is total and its result is a finite number of
    [130, 390]: whatever the host's [Date.parse] makes of [starts_at]
    (nothing, a time in the past, a time arbitrarily far ahead) and whatever
    the horizon (any number, so also every horizon of at least 24 hours). *)
Theorem radiusForTime_total_in_range :
  forall (Date_parse : string -> option Z) (now : Z) (horizonSec : JS.number)
         (n : GraphNode),
  exists r : Q,
    radiusForTime Date_parse now horizonSec n = JS.Fin r /\ (130 <= r <= 390)%Q.
Proof.
  intros parse now hz n.
  destruct (parse (JS.orEmpty (starts_at n))) as [ts |] eqn:Hp.
  - rewrite (radiusForTime_parsed parse now hz n ts Hp). cbv zeta.
    pose proof (secondsUntil_nonneg now ts) as H0.
    set (dt := secondsUntil now ts) in *.
    destruct (Qle_bool dt 86400) eqn:E1.
    { apply Qle_bool_iff in E1. eexists. split; [reflexivity |]. band_spans. lra. }
    destruct (Qle_bool dt 604800) eqn:E2.
    { apply Qle_bool_iff in E2. apply NumFacts.Qle_bool_false in E1.
      eexists. split; [reflexivity |]. band_spans. lra. }
    fold (laterFraction hz dt).
    destruct (laterFraction_unit hz dt H0) as [t [Ht [Ht0 Ht1]]].
    rewrite Ht. eexists. split; [reflexivity |]. lra.
  - rewrite (radiusForTime_unparsed parse now hz n Hp).
    exists 390%Q. split; [reflexivity | lra].
Qed.

(** ** The horizon *)

Section Horizon.

Import JS NumFacts.

Variable Date_parse : string -> option Z.

(** The list [fut] of [horizonSec] holds the future delays. *)
Lemma horizonSec_fut (now : Z) (nodes : list GraphNode) :
  map (fun ts => (ts - ofZ now) / ofZ 1000)%num
    (filter (fun ts => negb (isNaN ts) && (ts >? ofZ now)%num)
       (map (fun n => parseTime Date_parse (orEmpty (starts_at n))) nodes))
  = map Fin (futureEventDeltas Date_parse now nodes).
Proof.
  induction nodes as [| n nodes IH]; [reflexivity |].
  cbn [map filter futureEventDeltas flat_map].
  fold (futureEventDeltas Date_parse now nodes).
  destruct (Date_parse (orEmpty (starts_at n))) as [ts |] eqn:Hp.
  - assert (Hpt : parseTime Date_parse (orEmpty (starts_at n)) = ofZ ts)
      by (unfold parseTime; rewrite Hp; reflexivity).
    rewrite !Hpt.
    change (isNaN (ofZ ts)) with false. cbn [negb andb]. rewrite gtb_ofZ.
    destruct (now <? ts)%Z.
    + cbn [map app]. rewrite IH. reflexivity.
    + cbn [app]. exact IH.
  - assert (Hpt : parseTime Date_parse (orEmpty (starts_at n)) = NaN)
      by (unfold parseTime; rewrite Hp; reflexivity).
    rewrite !Hpt. cbn [isNaN negb andb app]. exact IH.
Qed.

(** The horizon is a finite number: the greatest of 24 hours and the
    future delays. *)
Lemma horizonSec_max (now : Z) (nodes : list GraphNode) :
  exists H : Q,
    horizonSec Date_parse now nodes = Fin H
    /\ (86400 <= H)%Q
    /\ (forall d, In d (futureEventDeltas Date_parse now nodes) -> (d <= H)%Q)
    /\ (H = 86400%Q \/ In H (futureEventDeltas Date_parse now nodes)).
Proof.
  unfold horizonSec. rewrite horizonSec_fut.
  change (ofZ (24 * 3600)) with (Fin 86400).
  change [Fin 86400] with (map Fin [86400%Q]).
  rewrite <- map_app.
  destruct (Math_max_Fin 86400 (futureEventDeltas Date_parse now nodes ++ [86400%Q]))
    as [m [Hm [Hin Hle]]].
  exists m. split; [exact Hm |].
  split; [apply Hle; left; reflexivity |].
  split.
  - intros d Hd. apply Hle. right. apply in_or_app. left. exact Hd.
  - destruct Hin as [Hin | Hin]; [left; symmetry; exact Hin |].
    apply in_app_or in Hin. destruct Hin as [Hin | [Hin | []]].
    + right. exact Hin.
    + left. symmetry. exact Hin.
Qed.

End Horizon.

(** ** The bands *)

Section Bands.

Import JS NumFacts.

Variable Date_parse : string -> option Z.

Lemma secondsUntil_future (now ts : Z) :
  (now <= ts)%Z -> (secondsUntil now ts == (inject_Z ts - inject_Z now) / 1000)%Q.
Proof.
  intro H. unfold secondsUntil. cbv zeta.
  destruct (Qle_bool 0 _) eqn:E; [reflexivity |].
  apply Qle_bool_false in E. rewrite Zle_Qle in H.
  unfold Qdiv in *. change (/ 1000)%Q with (1 # 1000)%Q in *. lra.
Qed.

Lemma secondsUntil_past (now ts : Z) :
  (ts <= now)%Z -> (secondsUntil now ts == 0)%Q.
Proof.
  intro H. unfold secondsUntil. cbv zeta.
  destruct (Qle_bool 0 _) eqn:E; [| reflexivity].
  apply Qle_bool_iff in E. rewrite Zle_Qle in H.
  unfold Qdiv in *. change (/ 1000)%Q with (1 # 1000)%Q in *. lra.
Qed.

Lemma secondsUntil_mono (now ts1 ts2 : Z) :
  (ts1 <= ts2)%Z -> (secondsUntil now ts1 <= secondsUntil now ts2)%Q.
Proof.
  intro H. rewrite Zle_Qle in H. unfold secondsUntil. cbv zeta.
  destruct (Qle_bool 0 ((inject_Z ts1 - inject_Z now) / 1000)) eqn:E1;
    destruct (Qle_bool 0 ((inject_Z ts2 - inject_Z now) / 1000)) eqn:E2;
    try apply Qle_bool_iff in E1; try apply Qle_bool_iff in E2;
    try apply Qle_bool_false in E1; try apply Qle_bool_false in E2;
    unfold Qdiv in *; change (/ 1000)%Q with (1 # 1000)%Q in *; lra.
Qed.

(** The radius in each band, for a start the host can parse and a
    positive finite horizon. *)
Lemma radiusForTime_in_band (now : Z) (H : Q) (n : GraphNode) (ts : Z) :
  Date_parse (orEmpty (starts_at n)) = Some ts ->
  (0 < H)%Q ->
  exists r : Q,
    radiusForTime Date_parse now (Fin H) n = Fin r
    /\ let dt := secondsUntil now ts in
       ((dt <= 86400 ->
         r == 130 + dt / 86400 * (190 - 130) /\ 130 <= r <= 190)
        /\ (86400 < dt <= 604800 ->
            r == 210 + (dt - 86400) / (604800 - 86400) * (290 - 210) /\ 210 < r <= 290)
        /\ (604800 < dt ->
            r == 310 + Qmin 1 (dt / H) * (390 - 310) /\ 310 < r <= 390))%Q.
Proof.
  intros Hp HH.
  rewrite (radiusForTime_parsed Date_parse now (Fin H) n ts Hp). cbv zeta.
  pose proof (secondsUntil_nonneg now ts) as H0.
  set (dt := secondsUntil now ts) in *.
  destruct (Qle_bool dt 86400) eqn:E1.
  { apply Qle_bool_iff in E1. eexists. split; [reflexivity |].
    split; [| split]; intro Hb.
    - split; [reflexivity | band_spans; lra].
    - exfalso. lra.
    - exfalso. lra. }
  apply Qle_bool_false in E1.
  destruct (Qle_bool dt 604800) eqn:E2.
  { apply Qle_bool_iff in E2. eexists. split; [reflexivity |].
    split; [| split]; intro Hb.
    - exfalso. lra.
    - split; [reflexivity | band_spans; lra].
    - exfalso. lra. }
  apply Qle_bool_false in E2.
  fold (laterFraction (Fin H) dt). rewrite (laterFraction_Fin H dt HH).
  eexists. split; [reflexivity |].
  split; [| split]; intro Hb; [exfalso; lra | exfalso; lra |].
  assert (Hpos : (0 < dt / H)%Q).
  { apply Qlt_shift_div_l; [exact HH |]. rewrite Qmult_0_l. lra. }
  destruct (Qle_bool 1 (dt / H)) eqn:E3.
  - apply Qle_bool_iff in E3. rewrite (Q.min_l _ _ E3).
    split; [reflexivity | lra].
  - apply Qle_bool_false in E3.
    rewrite (Q.min_r 1 (dt / H)) by (apply Qlt_le_weak; exact E3).
    split; [reflexivity |]. set (t := (dt / H)%Q) in *. lra.
Qed.

End Bands.

(** C1, as stated, fails in the Later band.  With a horizon of two weeks
    a start in ten days and a half lies midway in the band (7d, 14d]; the
    claim's interpolation puts it at 350, [radiusForTime] at 370. *)
Lemma radiusForTime_later_is_not_band_position :
  exists H r : Q,
    horizonSec ISO.parse noon (eventNodes [inTwoWeeks; inTenDaysAndAHalf]) = JS.Fin H
    /\ radiusForTime ISO.parse noon (JS.Fin H) inTenDaysAndAHalf = JS.Fin r
    /\ (H == 1209600)%Q
    /\ (secondsUntil noon 1760486400000 == 907200)%Q
    /\ (r == 370)%Q
    /\ (spec_radius H (secondsUntil noon 1760486400000) == 350)%Q
    /\ ~ (r == spec_radius H (secondsUntil noon 1760486400000))%Q.
Proof.
  eexists. eexists.
  split; [vm_compute; reflexivity |].
  split; [vm_compute; reflexivity |].
  repeat split; try (vm_compute; reflexivity).
  vm_compute. discriminate.
Qed.

(** C1, amended.  For a start the host parses to [ts], the horizon
    [horizonSec] computes over a working set is a finite number [H], the
    greatest of 24 hours and the future delays of the set, and the radius
    is a finite number [r] that, with [dt] the clamped delay in seconds,
    - is [130 + dt/24h * 60], within [130, 190], when [dt <= 24h] (Today);
    - is [210 + (dt - 24h)/(7d - 24h) * 80], within (210, 290], when
      [24h < dt <= 7d] (Next 7 days);
    - is [310 + min(1, dt/H) * 80], within (310, 390], when [7d < dt]
      (Later): the fraction is the position of [dt] in the whole horizon;
    in particular a start two hours after now has its radius strictly
    inside (130, 190). *)
Theorem radiusForTime_bands :
  forall (Date_parse : string -> option Z) (memoNow now : Z)
         (nodes : list GraphNode) (n : GraphNode) (ts : Z),
  Date_parse (JS.orEmpty (starts_at n)) = Some ts ->
  exists H r : Q,
    horizonSec Date_parse memoNow (eventNodes nodes) = JS.Fin H
    /\ (86400 <= H)%Q
    /\ (forall d, In d (futureEventDeltas Date_parse memoNow (eventNodes nodes)) ->
        (d <= H)%Q)
    /\ (H = 86400%Q \/ In H (futureEventDeltas Date_parse memoNow (eventNodes nodes)))
    /\ radiusForTime Date_parse now (JS.Fin H) n = JS.Fin r
    /\ let dt := secondsUntil now ts in
       ((dt <= 86400 ->
         r == 130 + dt / 86400 * (190 - 130) /\ 130 <= r <= 190)
        /\ (86400 < dt <= 604800 ->
            r == 210 + (dt - 86400) / (604800 - 86400) * (290 - 210) /\ 210 < r <= 290)
        /\ (604800 < dt ->
            r == 310 + Qmin 1 (dt / H) * (390 - 310) /\ 310 < r <= 390)
        /\ (ts = (now + 2 * 3600 * 1000)%Z -> 130 < r < 190))%Q.
Proof.
  intros parse memoNow now nodes n ts Hp.
  destruct (horizonSec_max parse memoNow (eventNodes nodes)) as [H [HH [Hge [Hub Hin]]]].
  assert (Hpos : (0 < H)%Q) by lra.
  destruct (radiusForTime_in_band parse now H n ts Hp Hpos) as [r [Hr Hbands]].
  exists H, r. repeat (split; [assumption |]).
  cbv zeta in *. destruct Hbands as [Htoday [Hnext Hlater]].
  repeat (split; [assumption |]).
  intro Hts.
  assert (Hdt : (secondsUntil now ts == 7200)%Q).
  { rewrite secondsUntil_future by lia. subst ts.
    rewrite inject_Z_plus. change (inject_Z (2 * 3600 * 1000)) with 7200000%Q.
    field. }
  destruct Htoday as [Heq _]; [rewrite Hdt; discriminate |].
  rewrite Heq, Hdt. split; reflexivity.
Qed.

Lemma radiusForTime_bands_witness :
  exists H r : Q,
    horizonSec ISO.parse noon (eventNodes [inTwoWeeks; inTwoHours]) = JS.Fin H
    /\ radiusForTime ISO.parse noon (JS.Fin H) inTwoHours = JS.Fin r
    /\ (130 < r < 190)%Q.
Proof.
  destruct (radiusForTime_bands ISO.parse noon noon [inTwoWeeks; inTwoHours]
              inTwoHours 1759586400000 eq_refl)
    as [H [r [HH [_ [_ [_ [Hr [_ [_ [_ H2]]]]]]]]]].
  exists H, r. split; [exact HH |]. split; [exact Hr |].
  apply H2. reflexivity.
Defined.

(** ** Monotonicity and the steps between the bands *)

Section Monotone.

Import JS NumFacts.

Variable Date_parse : string -> option Z.

Lemma laterFraction_mono (hz : number) (dt1 dt2 : Q) :
  (0 <= dt1)%Q -> (dt1 <= dt2)%Q ->
  exists t1 t2 : Q,
    laterFraction hz dt1 = Fin t1 /\ laterFraction hz dt2 = Fin t2
    /\ (0 <= t1)%Q /\ (t1 <= t2)%Q.
Proof.
  intros H0 H12. destruct hz as [| [|] | H].
  - exists (1 # 2), (1 # 2). repeat split; discriminate.
  - exists (1 # 2), (1 # 2). repeat split; discriminate.
  - exists 0%Q, 0%Q. repeat split; discriminate.
  - destruct (Qlt_le_dec 0 H) as [Hpos | Hneg].
    + rewrite !(laterFraction_Fin H _ Hpos).
      eexists. eexists. split; [reflexivity |]. split; [reflexivity |].
      assert (Hq1 : (0 <= dt1 / H)%Q).
      { apply Qle_shift_div_l; [exact Hpos |]. rewrite Qmult_0_l. exact H0. }
      assert (Hq : (dt1 / H <= dt2 / H)%Q).
      { unfold Qdiv. apply Qmult_le_compat_r; [exact H12 |].
        apply Qlt_le_weak, Qinv_lt_0_compat. exact Hpos. }
      destruct (Qle_bool 1 (dt1 / H)) eqn:E1; destruct (Qle_bool 1 (dt2 / H)) eqn:E2;
        try apply Qle_bool_iff in E1; try apply Qle_bool_iff in E2;
        try apply Qle_bool_false in E1; try apply Qle_bool_false in E2;
        set (q1 := (dt1 / H)%Q) in *; set (q2 := (dt2 / H)%Q) in *;
        split; lra.
    + assert (E : gtb (Fin H) (Fin 0) = false) by (apply gtb_Fin_false; exact Hneg).
      unfold laterFraction. rewrite E.
      exists (1 # 2), (1 # 2). repeat split; discriminate.
Qed.

End Monotone.

(** C4, as stated, fails at the band boundaries.  A start exactly one day
    ahead has radius 190 and a start one second later a radius above 210:
    the two are more than 20 units apart, far from any floating-point
    tolerance. *)
Lemma radiusForTime_steps_at_one_day :
  exists r1 r2 : Q,
    radiusForTime ISO.parse noon (JS.Fin 1209600) inOneDay = JS.Fin r1
    /\ radiusForTime ISO.parse noon (JS.Fin 1209600) inOneDayAndASecond = JS.Fin r2
    /\ (r1 == 190)%Q /\ (210 < r2)%Q /\ ~ (Qabs (r2 - r1) <= 20)%Q.
Proof.
  eexists. eexists.
  split; [vm_compute; reflexivity |].
  split; [vm_compute; reflexivity |].
  split; [vm_compute; reflexivity |].
  split; [vm_compute; reflexivity |].
  vm_compute. intro H. apply H. reflexivity.
Qed.

(** C4, amended.  For starts the host parses, [radiusForTime] is
    monotonically non-decreasing as the timestamp increases, within the
    Today band and across all bands; at the band boundaries it is not
    continuous but steps up: by more than 20 units from a delay of at most
    24 hours to a longer one, and by at least 20 units from a delay of at
    most 7 days to a longer one. *)
Theorem radiusForTime_monotone_with_steps :
  forall (Date_parse : string -> option Z) (now : Z) (horizonSec : JS.number)
         (n1 n2 : GraphNode) (ts1 ts2 : Z),
  Date_parse (JS.orEmpty (starts_at n1)) = Some ts1 ->
  Date_parse (JS.orEmpty (starts_at n2)) = Some ts2 ->
  (ts1 <= ts2)%Z ->
  exists r1 r2 : Q,
    radiusForTime Date_parse now horizonSec n1 = JS.Fin r1
    /\ radiusForTime Date_parse now horizonSec n2 = JS.Fin r2
    /\ (r1 <= r2)%Q
    /\ (secondsUntil now ts1 <= 86400 < secondsUntil now ts2 -> 20 < r2 - r1)%Q
    /\ (secondsUntil now ts1 <= 604800 < secondsUntil now ts2 -> 20 <= r2 - r1)%Q.
Proof.
  intros Date_parse now hz n1 n2 ts1 ts2.
  intros Hp1 Hp2 Hle.
  rewrite (radiusForTime_parsed Date_parse now hz n1 ts1 Hp1).
  rewrite (radiusForTime_parsed Date_parse now hz n2 ts2 Hp2). cbv zeta.
  pose proof (secondsUntil_nonneg now ts1) as H0.
  pose proof (secondsUntil_mono now ts1 ts2 Hle) as H12.
  set (dt1 := secondsUntil now ts1) in *. set (dt2 := secondsUntil now ts2) in *.
  fold (laterFraction hz dt1). fold (laterFraction hz dt2).
  destruct (laterFraction_mono hz dt1 dt2 H0 H12) as [t1 [t2 [Ht1 [Ht2 [Ht0 Ht12]]]]].
  destruct (laterFraction_unit hz dt2) as [t2' [Ht2' [_ Hle1]]]; [lra |].
  rewrite Ht2 in Ht2'. injection Ht2' as <-.
  rewrite Ht1, Ht2.
  destruct (Qle_bool dt1 86400) eqn:A1; destruct (Qle_bool dt1 604800) eqn:A2;
    destruct (Qle_bool dt2 86400) eqn:B1; destruct (Qle_bool dt2 604800) eqn:B2;
    try apply Qle_bool_iff in A1; try apply Qle_bool_iff in A2;
    try apply Qle_bool_iff in B1; try apply Qle_bool_iff in B2;
    try apply NumFacts.Qle_bool_false in A1; try apply NumFacts.Qle_bool_false in A2;
    try apply NumFacts.Qle_bool_false in B1; try apply NumFacts.Qle_bool_false in B2;
    try (exfalso; lra);
    (eexists; eexists; split; [reflexivity |]; split; [reflexivity |];
     band_spans; repeat split; try intros [? ?]; lra).
Qed.

Lemma radiusForTime_monotone_with_steps_witness :
  exists r1 r2 : Q,
    radiusForTime ISO.parse noon (JS.Fin 1209600) inTwoHours = JS.Fin r1
    /\ radiusForTime ISO.parse noon (JS.Fin 1209600) inOneDayAndASecond = JS.Fin r2
    /\ (r1 <= r2)%Q /\ (20 < r2 - r1)%Q.
Proof.
  destruct (radiusForTime_monotone_with_steps ISO.parse noon (JS.Fin 1209600)
              inTwoHours inOneDayAndASecond 1759586400000 1759665601000
              eq_refl eq_refl)
    as [r1 [r2 [H1 [H2 [Hle [Hstep _]]]]]].
  - vm_compute. discriminate.
  - exists r1, r2. split; [exact H1 |]. split; [exact H2 |]. split; [exact Hle |].
    apply Hstep. split; vm_compute; [discriminate | reflexivity].
Defined.

(** ** Ranking *)

Section Ranking.

Import JS NumFacts.

Context {A : Type} (key : A -> Q).

Lemma descending_le (a b : A) : Qle_bool (descending key a b) 0 = true <-> ranksBefore key a b.
Proof.
  unfold descending, ranksBefore. rewrite Qle_bool_iff. split; intro H; lra.
Qed.

Lemma insert_Permutation (x : A) (l : list A) :
  Permutation (insert (descending key) x l) (x :: l).
Proof.
  induction l as [| y l IH]; cbn [insert]; [apply Permutation_refl |].
  destruct (Qle_bool (descending key x y) 0); [apply Permutation_refl |].
  apply perm_trans with (y :: x :: l); [apply perm_skip; exact IH | apply perm_swap].
Qed.

Lemma sort_Permutation (l : list A) : Permutation (sort (descending key) l) l.
Proof.
  induction l as [| x l IH]; [apply perm_nil |].
  cbn [sort fold_right]. fold (sort (descending key) l).
  apply perm_trans with (x :: sort (descending key) l);
    [apply insert_Permutation | apply perm_skip; exact IH].
Qed.

Lemma insert_StronglySorted (x : A) (l : list A) :
  StronglySorted (ranksBefore key) l -> StronglySorted (ranksBefore key) (insert (descending key) x l).
Proof.
  induction l as [| y l IH]; intro Hs; cbn [insert].
  - constructor; [constructor | constructor].
  - inversion Hs as [| y' l' Hsl Hall]; subst.
    destruct (Qle_bool (descending key x y) 0) eqn:E.
    + apply descending_le in E. constructor; [exact Hs |].
      constructor; [exact E |].
      apply Forall_impl with (P := ranksBefore key y); [| exact Hall].
      intros z Hz. unfold ranksBefore in *. lra.
    + assert (Hyx : ranksBefore key y x).
      { apply Qle_bool_false in E. unfold descending in E. unfold ranksBefore. lra. }
      constructor; [apply IH; exact Hsl |].
      apply (Permutation_Forall (Permutation_sym (insert_Permutation x l))).
      constructor; [exact Hyx | exact Hall].
Qed.

Lemma sort_StronglySorted (l : list A) : StronglySorted (ranksBefore key) (sort (descending key) l).
Proof.
  induction l as [| x l IH]; [constructor |].
  cbn [sort fold_right]. fold (sort (descending key) l).
  apply insert_StronglySorted. exact IH.
Qed.

(** Stability: elements of equal key keep the order they came in. *)
Lemma insert_stable (v : Q) (x : A) (l : list A) :
  filter (keyed key v) (insert (descending key) x l) = filter (keyed key v) (x :: l).
Proof.
  induction l as [| y l IH]; cbn [insert]; [reflexivity |].
  destruct (Qle_bool (descending key x y) 0) eqn:E; [reflexivity |].
  apply Qle_bool_false in E. unfold descending in E.
  cbn [filter] in *. rewrite IH.
  destruct (keyed key v x) eqn:Kx; [| reflexivity].
  destruct (keyed key v y) eqn:Ky; [| reflexivity].
  unfold keyed in Kx, Ky. apply Qeq_bool_iff in Kx. apply Qeq_bool_iff in Ky.
  exfalso. lra.
Qed.

Lemma sort_stable (v : Q) (l : list A) :
  filter (keyed key v) (sort (descending key) l) = filter (keyed key v) l.
Proof.
  induction l as [| x l IH]; [reflexivity |].
  cbn [sort fold_right]. fold (sort (descending key) l).
  rewrite insert_stable. cbn [filter]. rewrite IH. reflexivity.
Qed.

Lemma StronglySorted_app (R : A -> A -> Prop) (l1 l2 : list A) :
  StronglySorted R (l1 ++ l2) ->
  StronglySorted R l1 /\ forall a b, In a l1 -> In b l2 -> R a b.
Proof.
  induction l1 as [| x l1 IH]; cbn [app]; intro Hs.
  - split; [constructor | intros a b []].
  - inversion Hs as [| x' l' Hsl Hall]; subst.
    destruct (IH Hsl) as [Hs1 Hcross].
    rewrite Forall_app in Hall. destruct Hall as [Hall1 Hall2].
    split; [constructor; assumption |].
    intros a b [Ha | Ha] Hb.
    + subst a. rewrite Forall_forall in Hall2. apply Hall2. exact Hb.
    + apply Hcross; assumption.
Qed.

(** A stable, descending rearrangement is unique: whatever algorithm the
    engine sorts with, it returns what [sort] computes. *)
Lemma stable_sorted_unique (l1 l2 : list A) :
  StronglySorted (ranksBefore key) l1 ->
  StronglySorted (ranksBefore key) l2 ->
  (forall v, filter (keyed key v) l1 = filter (keyed key v) l2) ->
  l1 = l2.
Proof.
  assert (Hself : forall a, keyed key (key a) a = true)
    by (intro a; apply Qeq_bool_iff; reflexivity).
  assert (Hhead : forall x l y l',
             StronglySorted (ranksBefore key) (y :: l') ->
             filter (keyed key (key x)) (x :: l) = filter (keyed key (key x)) (y :: l') ->
             (key x <= key y)%Q).
  { intros x l y l' Hs Hf. cbn [filter] in Hf. rewrite Hself in Hf.
    assert (Hin : In x (y :: l')).
    { assert (Hin : In x (filter (keyed key (key x)) (y :: l')))
        by (cbn [filter]; rewrite <- Hf; left; reflexivity).
      apply filter_In in Hin. apply Hin. }
    inversion Hs as [| y' l'' _ Hall]; subst.
    destruct Hin as [<- | Hin]; [apply Qle_refl |].
    rewrite Forall_forall in Hall. apply (Hall x Hin). }
  revert l2. induction l1 as [| x l1 IH]; intros l2 Hs1 Hs2 Hf.
  - destruct l2 as [| y l2]; [reflexivity |].
    specialize (Hf (key y)). cbn [filter] in Hf. rewrite Hself in Hf. discriminate.
  - destruct l2 as [| y l2].
    { specialize (Hf (key x)). cbn [filter] in Hf. rewrite Hself in Hf. discriminate. }
    pose proof (Hhead x l1 y l2 Hs2 (Hf (key x))) as Hxy.
    pose proof (Hhead y l2 x l1 Hs1 (eq_sym (Hf (key y)))) as Hyx.
    assert (Exy : x = y).
    { pose proof (Hf (key x)) as Hk. cbn [filter] in Hk. rewrite Hself in Hk.
      assert (Ky : keyed key (key x) y = true) by (apply Qeq_bool_iff; lra).
      rewrite Ky in Hk. injection Hk as Hk _. exact Hk. }
    subst y. f_equal.
    inversion Hs1 as [| ? ? Hs1' _]; inversion Hs2 as [| ? ? Hs2' _]; subst.
    apply IH; [exact Hs1' | exact Hs2' |].
    intro v. specialize (Hf v). cbn [filter] in Hf.
    destruct (keyed key v x); [injection Hf as Hf |]; exact Hf.
Qed.

Lemma sort_unique (l l' : list A) :
  StronglySorted (ranksBefore key) l' ->
  (forall v, filter (keyed key v) l' = filter (keyed key v) l) ->
  l' = sort (descending key) l.
Proof.
  intros Hs Hf. apply stable_sorted_unique; [exact Hs | apply sort_StronglySorted |].
  intro v. rewrite sort_stable. apply Hf.
Qed.

End Ranking.

(** Sorting commutes with a rewriting of the elements that keeps the keys. *)
Lemma sort_map {A : Type} (key : A -> Q) (f : A -> A) (l : list A) :
  (forall a, key (f a) = key a) ->
  JS.sort (descending key) (map f l) = map f (JS.sort (descending key) l).
Proof.
  intro Hk.
  assert (Hins : forall x l', JS.insert (descending key) (f x) (map f l')
                              = map f (JS.insert (descending key) x l')).
  { intros x l'. induction l' as [| y l' IH]; [reflexivity |].
    cbn [map JS.insert]. unfold descending at 1 3. rewrite !Hk.
    destruct (Qle_bool (key y - key x) 0); [reflexivity |].
    cbn [map]. rewrite IH. reflexivity. }
  induction l as [| x l IH]; [reflexivity |].
  cbn [map JS.sort fold_right]. fold (JS.sort (descending key) (map f l)).
  fold (JS.sort (descending key) l). rewrite IH. apply Hins.
Qed.

(** The ranking reads the type and the score of a node and nothing else. *)
Lemma eventNodes_map (f : GraphNode -> GraphNode) (nodes : list GraphNode) :
  (forall n, type (f n) = type n) ->
  (forall n, score (f n) = score n) ->
  eventNodes (map f nodes) = map f (eventNodes nodes).
Proof.
  intros Ht Hs. unfold eventNodes. cbv zeta.
  assert (Hf : filter isEvent (map f nodes) = map f (filter isEvent nodes)).
  { induction nodes as [| n nodes IH]; [reflexivity |].
    cbn [map filter]. unfold isEvent at 1. rewrite Ht. fold (isEvent n).
    destruct (isEvent n); [cbn [map]; rewrite IH |]; auto. }
  rewrite Hf.
  change (fun a b : GraphNode => (score b - score a)%Q) with (descending score).
  rewrite (sort_map score f _ Hs). apply firstn_map.
Qed.

(** The working set holds event nodes of the payload. *)
Lemma eventNodes_are_events (nodes : list GraphNode) (n : GraphNode) :
  In n (eventNodes nodes) -> type n = Some "event"%string /\ In n nodes.
Proof.
  intro Hn. unfold eventNodes in Hn. cbv zeta in Hn.
  assert (Hs : In n (JS.sort (descending score) (filter isEvent nodes))).
  { rewrite <- (firstn_skipn 10). apply in_or_app. left. exact Hn. }
  apply (Permutation_in n (sort_Permutation score _)) in Hs.
  apply filter_In in Hs. destruct Hs as [Hin Hev].
  split; [| exact Hin].
  unfold isEvent in Hev. destruct (type n) as [t |]; [| discriminate].
  apply String.eqb_eq in Hev. subst t. reflexivity.
Qed.

(** C3.  The working set is the first ten of the event nodes ranked by
    descending score, ties in payload order: with the nodes it leaves out
    it makes up a stable, descending rearrangement of all the nodes of type
    event, and it is the first ten of every such rearrangement; it has ten
    nodes, or all the event nodes when they are fewer;
    nothing it leaves out outranks anything it keeps; it holds event nodes
    of the payload only; and it reads nothing of a node but the type and
    the score, so no optional field can exclude a node.  Fifteen event
    nodes of strictly descending scores yield the ten highest, and of two
    nodes tied for the tenth place the earlier in the payload is kept. *)
Theorem eventNodes_top10 :
  forall nodes : list GraphNode,
  (exists rest : list GraphNode,
      Permutation (eventNodes nodes ++ rest) (filter isEvent nodes)
      /\ StronglySorted (ranksBefore score) (eventNodes nodes ++ rest)
      /\ (forall v, filter (keyed score v) (eventNodes nodes ++ rest)
                    = filter (keyed score v) (filter isEvent nodes))
      /\ (forall a b, In a (eventNodes nodes) -> In b rest -> (score b <= score a)%Q))
  /\ (forall ranked : list GraphNode,
         StronglySorted (ranksBefore score) ranked ->
         (forall v, filter (keyed score v) ranked
                    = filter (keyed score v) (filter isEvent nodes)) ->
         eventNodes nodes = firstn 10 ranked)
  /\ List.length (eventNodes nodes) = Nat.min 10 (List.length (filter isEvent nodes))
  /\ (forall n, In n (eventNodes nodes) -> type n = Some "event"%string /\ In n nodes)
  /\ (forall f : GraphNode -> GraphNode,
         (forall n, type (f n) = type n) -> (forall n, score (f n) = score n) ->
         eventNodes (map f nodes) = map f (eventNodes nodes))
  /\ eventNodes (aPerson :: fifteen) = firstn 10 fifteen
  /\ eventNodes tiedForTenth
     = map (fun k => nth k tiedForTenth aPerson) [8; 7; 6; 5; 4; 3; 2; 1; 0; 9]%nat.
Proof.
  intro nodes.
  set (events := filter isEvent nodes).
  set (sorted := JS.sort (descending score) events).
  assert (Hws : eventNodes nodes = firstn 10 sorted) by reflexivity.
  assert (Hsplit : eventNodes nodes ++ skipn 10 sorted = sorted)
    by (rewrite Hws; apply firstn_skipn).
  split.
  { exists (skipn 10 sorted). rewrite Hsplit.
    split; [apply sort_Permutation |].
    split; [apply sort_StronglySorted |].
    split; [intro v; apply sort_stable |].
    pose proof (sort_StronglySorted score events) as Hs. fold sorted in Hs.
    rewrite <- Hsplit in Hs. apply StronglySorted_app in Hs.
    destruct Hs as [_ Hcross]. exact Hcross. }
  split.
  { intros ranked Hs Hf. rewrite Hws. f_equal. symmetry.
    apply sort_unique; assumption. }
  split.
  { rewrite Hws, length_firstn. f_equal.
    apply Permutation_length, sort_Permutation. }
  split.
  { intros n Hn. apply eventNodes_are_events. exact Hn. }
  split; [intros f Ht Hs; apply eventNodes_map; assumption |].
  split; vm_compute; reflexivity.
Qed.

Lemma eventNodes_top10_witness :
  type (eventAt "event:a" 15 None) = Some "event"%string
  /\ List.length (eventNodes (aPerson :: fifteen)) = 10%nat
  /\ eventNodes (map (withStartsAt (fun _ => None)) (aPerson :: fifteen))
     = map (withStartsAt (fun _ => None)) (eventNodes (aPerson :: fifteen)).
Proof.
  destruct (eventNodes_top10 (aPerson :: fifteen)) as [_ [_ [Hlen [Hin [Hmap _]]]]].
  split; [| split].
  - apply (Hin (eventAt "event:a" 15 None)). vm_compute. left. reflexivity.
  - exact Hlen.
  - apply Hmap; reflexivity.
Defined.

(** C7.  A node whose [starts_at] is missing ([undefined], [null] or
    empty), on a host whose [Date.parse] rejects the empty string, or is a
    string the host cannot parse, has radius 390, the outer edge of the
    Later band: [radiusForTime] returns, it raises nothing.  A node whose
    start is not after now has its delay clamped to 0 and radius 130, the
    inner edge of the Today band.  And the start has no part in the
    ranking: the working set is the same nodes whatever their starts, so no
    node is excluded for its start. *)
Theorem radiusForTime_missing_unparsable_past :
  forall (Date_parse : string -> option Z) (now : Z) (horizonSec : JS.number)
         (n : GraphNode),
  (Date_parse ""%string = None -> JS.truthy (starts_at n) = false ->
   radiusForTime Date_parse now horizonSec n = JS.Fin 390)
  /\ (Date_parse (JS.orEmpty (starts_at n)) = None ->
      radiusForTime Date_parse now horizonSec n = JS.Fin 390)
  /\ (forall ts : Z,
        Date_parse (JS.orEmpty (starts_at n)) = Some ts -> (ts <= now)%Z ->
        (secondsUntil now ts == 0)%Q
        /\ exists r : Q,
             radiusForTime Date_parse now horizonSec n = JS.Fin r /\ (r == 130)%Q)
  /\ (forall (start : GraphNode -> option string) (nodes : list GraphNode),
        eventNodes (map (withStartsAt start) nodes)
        = map (withStartsAt start) (eventNodes nodes)).
Proof.
  intros parse now hz n.
  split.
  { intros Hempty Hnone. apply radiusForTime_unparsed.
    destruct (starts_at n) as [[| c s] |]; [exact Hempty | discriminate | exact Hempty]. }
  split; [apply radiusForTime_unparsed |].
  split.
  - intros ts Hp Hpast.
    pose proof (secondsUntil_past now ts Hpast) as Hdt.
    split; [exact Hdt |].
    rewrite (radiusForTime_parsed parse now hz n ts Hp). cbv zeta.
    assert (E : Qle_bool (secondsUntil now ts) 86400 = true).
    { apply Qle_bool_iff. rewrite Hdt. discriminate. }
    rewrite E. eexists. split; [reflexivity |]. rewrite Hdt. reflexivity.
  - intros start nodes. apply eventNodes_map; reflexivity.
Qed.

Lemma radiusForTime_missing_unparsable_past_witness :
  radiusForTime ISO.parse noon (JS.Fin 1209600) undated = JS.Fin 390
  /\ radiusForTime ISO.parse noon (JS.Fin 1209600) misdated = JS.Fin 390
  /\ (exists r : Q,
        radiusForTime ISO.parse noon (JS.Fin 1209600) lastYear = JS.Fin r /\ (r == 130)%Q).
Proof.
  split; [| split].
  - destruct (radiusForTime_missing_unparsable_past ISO.parse noon (JS.Fin 1209600)
                undated) as [H _].
    apply H; reflexivity.
  - destruct (radiusForTime_missing_unparsable_past ISO.parse noon (JS.Fin 1209600)
                misdated) as [_ [H _]].
    apply H. reflexivity.
  - destruct (radiusForTime_missing_unparsable_past ISO.parse noon (JS.Fin 1209600)
                lastYear) as [_ [_ [H _]]].
    apply (H 1728043200000%Z); [reflexivity | vm_compute; discriminate].
Defined.

(** ** Malformed nodes *)

Lemma enriched_eventNodes (payload : list GraphNode) :
  eventNodes (enriched payload) = map enrich (eventNodes payload).
Proof. apply eventNodes_map; reflexivity. Qed.

Lemma filter_isEvent_hasType (payload : list GraphNode) :
  filter isEvent (filter hasType payload) = filter isEvent payload.
Proof.
  induction payload as [| n payload IH]; [reflexivity |].
  cbn [filter]. destruct (hasType n) eqn:Eh.
  - cbn [filter]. rewrite IH. reflexivity.
  - assert (Ev : isEvent n = false).
    { unfold hasType in Eh. unfold isEvent.
      destruct (type n); [discriminate | reflexivity]. }
    rewrite Ev. exact IH.
Qed.

(** C8, as stated, fails for a node that lacks its id: of type event, it
    is ranked with the others and is in the working set; the angle of the
    placement then reads the length of an id that is not there. *)
Lemma eventNodes_keeps_node_without_id :
  id withoutId = None
  /\ In (enrich withoutId) (eventNodes (enriched [inTwoHours; withoutId; withoutType]))
  /\ angleForEvent (enrich withoutId) = JS.ThrowTypeError.
Proof.
  split; [reflexivity |]. split; [| reflexivity].
  vm_compute. right. left. reflexivity.
Qed.

(** C8, amended.  A node that lacks its type is excluded from the working
    set and the render goes on: the working set, whose nodes all have type
    event, holds no node without a type, enriched or not, and it is the
    working set of the payload from which the nodes without a type have
    been taken away, so the other nodes are ranked and cut to ten as if
    those were not there. *)
Theorem eventNodes_excludes_untyped :
  forall payload : list GraphNode,
  (forall n, In n (eventNodes (enriched payload)) -> type n = Some "event"%string)
  /\ (forall n, type n = None ->
        ~ In n (eventNodes (enriched payload))
        /\ ~ In (enrich n) (eventNodes (enriched payload)))
  /\ eventNodes (enriched payload) = eventNodes (enriched (filter hasType payload)).
Proof.
  intro payload. split; [| split].
  - intros n Hn. apply (eventNodes_are_events (enriched payload)). exact Hn.
  - intros n Hty. split; intro Hn; apply eventNodes_are_events in Hn;
      destruct Hn as [Hev _].
    + congruence.
    + change (type (enrich n)) with (type n) in Hev. congruence.
  - rewrite !enriched_eventNodes. f_equal. unfold eventNodes.
    rewrite filter_isEvent_hasType. reflexivity.
Qed.

Lemma eventNodes_excludes_untyped_witness :
  ~ In (enrich withoutType) (eventNodes (enriched [inTwoHours; withoutType; inOneDay]))
  /\ eventNodes (enriched [inTwoHours; withoutType; inOneDay])
     = eventNodes (enriched [inTwoHours; inOneDay]).
Proof.
  destruct (eventNodes_excludes_untyped [inTwoHours; withoutType; inOneDay])
    as [_ [Hout Hsame]].
  split.
  - apply (Hout withoutType). reflexivity.
  - exact Hsame.
Defined.

(** ** The size scale *)

(** C2 fails on the code.  Over a working set whose scores are all equal
    the least and the greatest score coincide, the scale divides zero by
    zero and the size of every node is [NaN]: there is no guard, no
    midpoint ratio, and the size is not a finite number. *)
Theorem nodeValScale_equal_scores :
  forall (eventNodes : list GraphNode) (s : Q),
  eventNodes <> [] ->
  (forall n, In n eventNodes -> (score n == s)%Q) ->
  forall n, In n eventNodes -> nodeValScale eventNodes (JS.Fin (score n)) = JS.NaN.
Proof.
  intros nodes s Hne Hall n Hn. unfold nodeValScale. cbv zeta.
  destruct nodes as [| n0 nodes]; [contradiction Hne; reflexivity |].
  set (scores := map score (n0 :: nodes)).
  assert (Hmap : map (fun n => JS.Fin (score n)) (n0 :: nodes) = map JS.Fin scores).
  { unfold scores. rewrite map_map. reflexivity. }
  rewrite Hmap. unfold scores. cbn [map].
  destruct (NumFacts.Math_min_Fin (score n0) (map score nodes)) as [lo [Hlo [Hlo_in _]]].
  destruct (NumFacts.Math_max_Fin (score n0) (map score nodes)) as [hi [Hhi [Hhi_in _]]].
  cbn [map] in Hlo, Hhi. rewrite Hlo, Hhi.
  assert (Hs : forall q, In q (score n0 :: map score nodes) -> (q == s)%Q).
  { intros q Hq. change (In q (map score (n0 :: nodes))) in Hq.
    apply in_map_iff in Hq. destruct Hq as [m [<- Hm]]. apply Hall. exact Hm. }
  pose proof (Hs lo Hlo_in) as Elo. pose proof (Hs hi Hhi_in) as Ehi.
  pose proof (Hall n Hn) as En.
  change (JS.sub (JS.Fin (score n)) (JS.Fin lo)) with (JS.Fin (score n - lo)).
  change (JS.sub (JS.Fin hi) (JS.Fin lo)) with (JS.Fin (hi - lo)).
  rewrite NumFacts.div_zero_zero; [reflexivity | lra | lra].
Qed.

Lemma nodeValScale_equal_scores_witness :
  nodeValScale threeFives (JS.Fin 5) = JS.NaN
  /\ nodeValScale [eventAt "event:a" 5 None] (JS.Fin 5) = JS.NaN.
Proof.
  split.
  - apply (nodeValScale_equal_scores threeFives 5 ltac:(discriminate)) with
      (n := eventAt "event:a" 5 None).
    + intros n [<- | [<- | [<- | []]]]; reflexivity.
    + left. reflexivity.
  - apply (nodeValScale_equal_scores [eventAt "event:a" 5 None] 5 ltac:(discriminate)) with
      (n := eventAt "event:a" 5 None).
    + intros n [<- | []]. reflexivity.
    + left. reflexivity.
Defined.

(** ** The angle *)



(** Each round of the hash is [31 * h + c], wrapped to 32 bits. *)
Lemma hashStr_step (h : Z) (c : ascii) :
  JS.toInt32 (JS.shl h 5 - h + JS.charCode c) = JS.toInt32 (31 * h + JS.charCode c).
Proof.
  unfold JS.shl, JS.toInt32. rewrite Z.shiftl_mul_pow2 by lia.
  f_equal.
  replace (((h * 2 ^ 5 + 2 ^ 31) mod 2 ^ 32 - 2 ^ 31 - h + JS.charCode c + 2 ^ 31))%Z
    with ((h * 2 ^ 5 + 2 ^ 31) mod 2 ^ 32 + (JS.charCode c - h))%Z by lia.
  rewrite Zplus_mod_idemp_l. f_equal. lia.
Qed.



(** ** The topic palette *)

Lemma TOPIC_COLORS_lookup (i : nat) :
  (i < 8)%nat ->
  exists c : string,
    nth_error TOPIC_COLORS i = Some c /\ In c TOPIC_COLORS /\ c <> OTHER_TOPIC_COLOR.
Proof.
  intro Hi.
  do 8 (destruct i as [| i];
        [eexists; split; [reflexivity |]; split; [cbn; tauto | discriminate] |]).
  lia.
Qed.

(** C6.  With [t] the trimmed topic: a topic that is missing, empty (or
    blank), or spelled "other" in any case has the reserved colour
    [OTHER_TOPIC_COLOR], which is none of the eight of the palette; every
    other topic has the colour of the palette at index
    [|hashStr t| mod 8], a function of the string [t] alone, so the same
    topic has the same colour in every fetch; "Music" has "#e6ab02". *)
Theorem topicColor_palette_or_fallback :
  forall topic : option string,
  let t := JS.trim (JS.orEmpty topic) in
  (topic = None \/ t = ""%string \/ JS.toLowerCase t = "other"%string ->
   topicColor topic = Some OTHER_TOPIC_COLOR)
  /\ (t <> ""%string -> JS.toLowerCase t <> "other"%string ->
      exists c : string,
        topicColor topic = Some c
        /\ nth_error TOPIC_COLORS (Z.to_nat (Z.abs (hashStr t) mod 8)) = Some c
        /\ In c TOPIC_COLORS /\ c <> OTHER_TOPIC_COLOR)
  /\ ~ In OTHER_TOPIC_COLOR TOPIC_COLORS
  /\ List.length TOPIC_COLORS = 8%nat
  /\ topicColor (Some "Music"%string) = Some "#e6ab02"%string
  /\ topicColor (Some " OtHeR "%string) = Some OTHER_TOPIC_COLOR
  /\ topicColor (Some ""%string) = Some OTHER_TOPIC_COLOR.
Proof.
  intros topic t.
  assert (Hfallback : t = ""%string \/ JS.toLowerCase t = "other"%string ->
                      topicColor topic = Some OTHER_TOPIC_COLOR).
  { intro H. unfold topicColor.
    destruct (JS.truthy topic) eqn:Etr; [| reflexivity].
    cbn [negb].
    assert (Et : JS.trim (JS.toString topic) = t).
    { unfold t. destruct topic as [s |]; [reflexivity | discriminate]. }
    rewrite Et.
    destruct H as [H | H].
    - rewrite H. reflexivity.
    - destruct (String.length t =? 0)%nat; [reflexivity |].
      rewrite H. reflexivity. }
  split; [| split; [| split; [| split; [reflexivity | repeat split; reflexivity]]]].
  - intros [H | H]; [| apply Hfallback; exact H].
    subst topic. reflexivity.
  - intros Hne Hother. unfold topicColor.
    destruct (JS.truthy topic) eqn:Etr.
    + cbn [negb].
      assert (Et : JS.trim (JS.toString topic) = t).
      { unfold t. destruct topic as [s |]; [reflexivity | discriminate]. }
      rewrite Et.
      destruct (String.length t =? 0)%nat eqn:El.
      { apply Nat.eqb_eq in El. destruct t; [contradiction Hne; reflexivity | discriminate]. }
      destruct (String.eqb (JS.toLowerCase t) "other") eqn:Eo.
      { apply String.eqb_eq in Eo. contradiction. }
      change (Z.of_nat (List.length TOPIC_COLORS)) with 8%Z.
      unfold JS.Math_abs.
      destruct (TOPIC_COLORS_lookup (Z.to_nat (Z.abs (hashStr t) mod 8))) as [c [Hc Hin]].
      { pose proof (Z.mod_pos_bound (Z.abs (hashStr t)) 8 ltac:(lia)). lia. }
      exists c. split; [exact Hc | split; [exact Hc | exact Hin]].
    + exfalso. apply Hne. unfold t.
      destruct topic as [[| c s] |]; [reflexivity | discriminate | reflexivity].
  - cbn. intros H. repeat (destruct H as [H | H]; [discriminate |]). exact H.
Qed.

Lemma topicColor_palette_or_fallback_witness :
  topicColor (Some "OTHER"%string) = Some OTHER_TOPIC_COLOR
  /\ topicColor None = Some OTHER_TOPIC_COLOR
  /\ exists c : string, topicColor (Some " Tech talks "%string) = Some c /\ In c TOPIC_COLORS.
Proof.
  split; [| split].
  - destruct (topicColor_palette_or_fallback (Some "OTHER"%string)) as [H _].
    apply H. right. right. reflexivity.
  - destruct (topicColor_palette_or_fallback None) as [H _].
    apply H. left. reflexivity.
  - destruct (topicColor_palette_or_fallback (Some " Tech talks "%string))
      as [_ [H _]].
    destruct H as [c [Hc [_ [Hin _]]]]; [discriminate | discriminate |].
    exists c. split; [exact Hc | exact Hin].
Defined.

(** ** Click navigation *)

(** C9, as stated, fails for an event node whose id is the bare prefix
    [event:]: of type event, it carries a derived event id, the empty
    string, and a click on it causes nothing, with or without the parent's
    callback. *)
Lemma handleNodeClick_ignores_empty_event_id :
  type (enrich barePrefix) = Some "event"%string
  /\ event_id (enrich barePrefix) = Some ""%string
  /\ handleNodeClick (fun s => s) unit None (enrich barePrefix) = None
  /\ handleNodeClick (fun s => s) unit (Some (fun _ => tt)) (enrich barePrefix) = None.
Proof. repeat split; reflexivity. Qed.

(** C9, amended.  A click causes something exactly when the node has type
    event and carries a derived event id that is not the empty string;
    what it causes is one call of the parent's callback with that id when
    the callback is supplied, and otherwise the assignment of the event
    page's path, closed by the encoded id, to the location.  A click on an
    event node without an event id, or with the empty one, returns without
    causing anything. *)
Theorem handleNodeClick_navigates_iff :
  forall (encodeURIComponent : string -> string) (Action : Type)
         (onEventClick : option (string -> Action)) (n : GraphNode),
  (handleNodeClick encodeURIComponent Action onEventClick n <> None
   <-> type n = Some "event"%string
       /\ exists eid : string, event_id n = Some eid /\ eid <> ""%string)
  /\ (forall eid : string,
        type n = Some "event"%string -> event_id n = Some eid -> eid <> ""%string ->
        handleNodeClick encodeURIComponent Action onEventClick n
        = Some (match onEventClick with
                | Some callback => Invoke Action (callback eid)
                | None => Navigate Action ("/events/eventpage/" ++ encodeURIComponent eid)
                end))
  /\ (type n = Some "event"%string ->
      event_id n = None \/ event_id n = Some ""%string ->
      handleNodeClick encodeURIComponent Action onEventClick n = None).
Proof.
  intros enc Action cb n.
  assert (Hev : isEvent n = true <-> type n = Some "event"%string).
  { unfold isEvent. destruct (type n) as [t |].
    - rewrite String.eqb_eq. split; [intros -> | intros [= ->]]; reflexivity.
    - split; discriminate. }
  assert (Htr : JS.truthy (event_id n) = true
                <-> exists eid : string, event_id n = Some eid /\ eid <> ""%string).
  { destruct (event_id n) as [[| c eid] |]; cbn [JS.truthy].
    - split; [discriminate | intros [eid [[= <-] H]]; contradiction H; reflexivity].
    - split; [intros _; eexists; split; [reflexivity | discriminate] | reflexivity].
    - split; [discriminate | intros [eid [H _]]; discriminate]. }
  split; [| split].
  - unfold handleNodeClick. rewrite <- Hev, <- Htr.
    destruct (isEvent n); destruct (JS.truthy (event_id n)); cbn [andb].
    + split; [intros _; split; reflexivity | intros _; destruct cb; discriminate].
    + split; [intro H; contradiction H; reflexivity | intros [_ H]; discriminate].
    + split; [intro H; contradiction H; reflexivity | intros [H _]; discriminate].
    + split; [intro H; contradiction H; reflexivity | intros [H _]; discriminate].
  - intros eid Hty Heid Hne. unfold handleNodeClick.
    apply Hev in Hty. rewrite Hty, Heid.
    destruct eid as [| c eid]; [contradiction Hne; reflexivity |].
    cbn [JS.truthy andb JS.orEmpty JS.toString]. destruct cb; reflexivity.
  - intros Hty Heid. unfold handleNodeClick.
    destruct Heid as [Heid | Heid]; rewrite Heid;
      cbn [JS.truthy]; rewrite andb_false_r; reflexivity.
Qed.

Lemma handleNodeClick_navigates_iff_witness :
  handleNodeClick (fun s => s) unit None (enrich inTwoHours)
  = Some (Navigate unit "/events/eventpage/1")
  /\ handleNodeClick (fun s => s) unit (Some (fun _ => tt)) (enrich inTwoHours)
     = Some (Invoke unit tt)
  /\ handleNodeClick (fun s => s) unit None inTwoHours = None
  /\ handleNodeClick (fun s => s) unit None (enrich barePrefix) = None.
Proof.
  split; [| split; [| split]].
  - destruct (handleNodeClick_navigates_iff (fun s => s) unit None (enrich inTwoHours))
      as [_ [H _]].
    apply (H "1"%string); [reflexivity | reflexivity | discriminate].
  - destruct (handleNodeClick_navigates_iff (fun s => s) unit (Some (fun _ => tt))
                (enrich inTwoHours)) as [_ [H _]].
    apply (H "1"%string); [reflexivity | reflexivity | discriminate].
  - destruct (handleNodeClick_navigates_iff (fun s => s) unit None inTwoHours)
      as [_ [_ H]].
    apply H; [reflexivity | left; reflexivity].
  - destruct (handleNodeClick_navigates_iff (fun s => s) unit None (enrich barePrefix))
      as [_ [_ H]].
    apply H; [reflexivity | right; reflexivity].
Defined.

(** * Further properties of the component *)

(** ** Clamping and the saturation of a node *)

Lemma clamp_Fin (v lo hi : Q) :
  clamp (JS.Fin v) (JS.Fin lo) (JS.Fin hi)
  = JS.Fin (let m := if Qle_bool hi v then hi else v in
            if Qle_bool lo m then m else lo).
Proof.
  unfold clamp. rewrite NumFacts.Math_min_pair.
  destruct (Qle_bool hi v); rewrite NumFacts.Math_max_pair; cbv zeta;
    destruct (Qle_bool lo _); reflexivity.
Qed.

Lemma clamp_cases (lo hi : Q) :
  (lo <= hi)%Q ->
  forall v : Q,
  exists c : Q,
    clamp (JS.Fin v) (JS.Fin lo) (JS.Fin hi) = JS.Fin c
    /\ (lo <= c <= hi)%Q
    /\ (lo <= v <= hi -> c == v)%Q
    /\ (v <= lo -> c == lo)%Q
    /\ (hi <= v -> c == hi)%Q.
Proof.
  intros Hlh v. rewrite clamp_Fin. cbv zeta.
  eexists. split; [reflexivity |].
  destruct (Qle_bool hi v) eqn:E1.
  - apply Qle_bool_iff in E1.
    assert (E2 : Qle_bool lo hi = true) by (apply Qle_bool_iff; exact Hlh).
    rewrite E2. repeat split; lra.
  - apply NumFacts.Qle_bool_false in E1.
    destruct (Qle_bool lo v) eqn:E2;
      [apply Qle_bool_iff in E2 | apply NumFacts.Qle_bool_false in E2];
      repeat split; lra.
Qed.

(** X1.  [clamp] of an ordinary number into a proper interval lies in the
    interval: it is the number when the number is inside, and the nearer
    bound when it is outside; it grows with the number and clamping twice
    changes nothing.  A [NaN] is not clamped: it stays [NaN]. *)
Theorem clamp_into_interval :
  forall lo hi : Q,
  (lo <= hi)%Q ->
  (forall v : Q,
      exists c : Q,
        clamp (JS.Fin v) (JS.Fin lo) (JS.Fin hi) = JS.Fin c
        /\ (lo <= c <= hi)%Q
        /\ (lo <= v <= hi -> c == v)%Q
        /\ (v <= lo -> c == lo)%Q
        /\ (hi <= v -> c == hi)%Q
        /\ exists c' : Q,
             clamp (JS.Fin c) (JS.Fin lo) (JS.Fin hi) = JS.Fin c' /\ (c' == c)%Q)
  /\ (forall v w c d : Q,
        (v <= w)%Q ->
        clamp (JS.Fin v) (JS.Fin lo) (JS.Fin hi) = JS.Fin c ->
        clamp (JS.Fin w) (JS.Fin lo) (JS.Fin hi) = JS.Fin d ->
        (c <= d)%Q)
  /\ clamp JS.NaN (JS.Fin lo) (JS.Fin hi) = JS.NaN.
Proof.
  intros lo hi Hlh.
  pose proof (clamp_cases lo hi Hlh) as Hmain.
  split; [| split; [| reflexivity]].
  - intro v. destruct (Hmain v) as [c [Hc [Hin [Hv [Hl Hh]]]]].
    exists c. repeat (split; [assumption |]).
    destruct (Hmain c) as [c' [Hc' [_ [Hv' _]]]].
    exists c'. split; [exact Hc' | apply Hv'; exact Hin].
  - intros v w c d Hvw Hc Hd. rewrite clamp_Fin in Hc, Hd. cbv zeta in Hc, Hd.
    injection Hc as <-. injection Hd as <-.
    destruct (Qle_bool hi v) eqn:A1; destruct (Qle_bool hi w) eqn:A2;
      try apply Qle_bool_iff in A1; try apply Qle_bool_iff in A2;
      try apply NumFacts.Qle_bool_false in A1; try apply NumFacts.Qle_bool_false in A2;
      match goal with
      | |- ((if Qle_bool lo ?x then _ else _) <= (if Qle_bool lo ?y then _ else _))%Q =>
          destruct (Qle_bool lo x) eqn:B1; destruct (Qle_bool lo y) eqn:B2
      end;
      try apply Qle_bool_iff in B1; try apply Qle_bool_iff in B2;
      try apply NumFacts.Qle_bool_false in B1; try apply NumFacts.Qle_bool_false in B2;
      lra.
Qed.

Lemma clamp_into_interval_witness :
  exists c : Q,
    clamp (JS.Fin 7) (JS.Fin (2 # 5)) (JS.Fin 1) = JS.Fin c /\ (c == 1)%Q.
Proof.
  destruct (clamp_into_interval (2 # 5) 1) as [H _]; [discriminate |].
  destruct (H 7%Q) as [c [Hc [_ [_ [_ [Hhi _]]]]]].
  exists c. split; [exact Hc | apply Hhi; discriminate].
Defined.

Lemma socialSaturation_clamp (n : GraphNode) :
  socialSaturation n
  = clamp (JS.Fin (inject_Z (socialCount n) / 5)) (JS.Fin (2 # 5)) (JS.Fin 1).
Proof.
  unfold socialSaturation, socialCount, JS.orZero.
  destruct (social_count n); reflexivity.
Qed.

(** X2.  The saturation [drawNode] asks for is an ordinary number between
    0.4 and 1: it is 0.4 for a node with no count, or a count of two or
    less, a fifth of the count from two to five, and 1 from five
    connections on; a greater count never gives a lesser saturation. *)
Theorem socialSaturation_range :
  forall n : GraphNode,
  (exists q : Q,
      socialSaturation n = JS.Fin q
      /\ ((2 # 5) <= q <= 1)%Q
      /\ ((socialCount n <= 2)%Z -> q == 2 # 5)%Q
      /\ ((2 <= socialCount n <= 5)%Z -> q == inject_Z (socialCount n) / 5)%Q
      /\ ((5 <= socialCount n)%Z -> q == 1)%Q)
  /\ (forall (n' : GraphNode) (q q' : Q),
        (socialCount n <= socialCount n')%Z ->
        socialSaturation n = JS.Fin q -> socialSaturation n' = JS.Fin q' ->
        (q <= q')%Q).
Proof.
  intro n. split.
  - rewrite socialSaturation_clamp.
    destruct (clamp_cases (2 # 5) 1 ltac:(discriminate) (inject_Z (socialCount n) / 5))
      as [q [Hq [Hin [Hv [Hl Hh]]]]].
    exists q. split; [exact Hq |]. split; [exact Hin |].
    assert (Hdiv : forall k : Z, (inject_Z (socialCount n) / 5 == inject_Z (socialCount n) * (1 # 5))%Q)
      by (intros _; reflexivity).
    split; [| split]; intro Hc.
    + apply Hl. rewrite Zle_Qle in Hc. rewrite (Hdiv 0%Z).
      change (inject_Z 2) with 2%Q in Hc. lra.
    + apply Hv. destruct Hc as [Hc1 Hc2]. rewrite Zle_Qle in Hc1, Hc2.
      rewrite (Hdiv 0%Z). change (inject_Z 2) with 2%Q in Hc1.
      change (inject_Z 5) with 5%Q in Hc2. lra.
    + apply Hh. rewrite Zle_Qle in Hc. rewrite (Hdiv 0%Z).
      change (inject_Z 5) with 5%Q in Hc. lra.
  - intros n' q q' Hle Hq Hq'. rewrite socialSaturation_clamp in Hq, Hq'.
    rewrite clamp_Fin in Hq, Hq'. cbv zeta in Hq, Hq'.
    injection Hq as <-. injection Hq' as <-.
    rewrite Zle_Qle in Hle.
    set (x := inject_Z (socialCount n)) in *. set (y := inject_Z (socialCount n')) in *.
    assert (Hx : (x / 5 == x * (1 # 5))%Q) by reflexivity.
    assert (Hy : (y / 5 == y * (1 # 5))%Q) by reflexivity.
    destruct (Qle_bool 1 (x / 5)) eqn:A1; destruct (Qle_bool 1 (y / 5)) eqn:A2;
      try apply Qle_bool_iff in A1; try apply Qle_bool_iff in A2;
      try apply NumFacts.Qle_bool_false in A1; try apply NumFacts.Qle_bool_false in A2;
      match goal with
      | |- ((if Qle_bool ?a ?u then _ else _) <= (if Qle_bool ?a ?w then _ else _))%Q =>
          destruct (Qle_bool a u) eqn:B1; destruct (Qle_bool a w) eqn:B2
      end;
      try apply Qle_bool_iff in B1; try apply Qle_bool_iff in B2;
      try apply NumFacts.Qle_bool_false in B1; try apply NumFacts.Qle_bool_false in B2;
      lra.
Qed.

Lemma socialSaturation_range_witness :
  exists q : Q,
    socialSaturation (mkNode None None "" 0 None None 1 (Some 3%Z) None None) = JS.Fin q
    /\ (q == 3 # 5)%Q.
Proof.
  destruct (socialSaturation_range (mkNode None None "" 0 None None 1 (Some 3%Z) None None))
    as [[q [Hq [_ [_ [Hmid _]]]]] _].
  exists q. split; [exact Hq |].
  rewrite Hmid; [reflexivity | cbn; lia].
Defined.

(** ** The size scale away from the degenerate case *)

Lemma scores_min_max (n0 : GraphNode) (nodes : list GraphNode) :
  exists lo hi : Q,
    JS.Math_min (map (fun n => JS.Fin (score n)) (n0 :: nodes)) = JS.Fin lo
    /\ JS.Math_max (map (fun n => JS.Fin (score n)) (n0 :: nodes)) = JS.Fin hi
    /\ In lo (map score (n0 :: nodes)) /\ In hi (map score (n0 :: nodes))
    /\ forall n, In n (n0 :: nodes) -> (lo <= score n <= hi)%Q.
Proof.
  assert (Hmap : map (fun n => JS.Fin (score n)) (n0 :: nodes)
                 = map JS.Fin (score n0 :: map score nodes)).
  { cbn [map]. rewrite map_map. reflexivity. }
  rewrite Hmap.
  destruct (NumFacts.Math_min_Fin (score n0) (map score nodes)) as [lo [Hlo [Hlo_in Hlo_le]]].
  destruct (NumFacts.Math_max_Fin (score n0) (map score nodes)) as [hi [Hhi [Hhi_in Hhi_le]]].
  exists lo, hi. repeat (split; [assumption |]).
  intros n Hn.
  assert (Hs : In (score n) (score n0 :: map score nodes)).
  { change (In (score n) (map score (n0 :: nodes))). apply in_map. exact Hn. }
  split; [apply Hlo_le | apply Hhi_le]; exact Hs.
Qed.

(** X3.  Over a working set that holds two different scores, the size of
    every node of the set is an ordinary number between 24 and 84:
    60 * (0.4 + (s - lo) / (hi - lo)) for the least score [lo] and the
    greatest [hi] of the set, so 24 at the least score, 84 at the greatest,
    and the size never goes down as the score goes up. *)
Theorem nodeValScale_spread :
  forall (eventNodes : list GraphNode) (a b : GraphNode),
  In a eventNodes -> In b eventNodes -> (score a < score b)%Q ->
  exists lo hi : Q,
    (lo < hi)%Q
    /\ In lo (map score eventNodes) /\ In hi (map score eventNodes)
    /\ (forall n, In n eventNodes ->
        exists size : Q,
          nodeValScale eventNodes (JS.Fin (score n)) = JS.Fin size
          /\ (size == 60 * ((2 # 5) + (score n - lo) / (hi - lo)))%Q
          /\ (24 <= size <= 84)%Q
          /\ (score n == lo -> size == 24)%Q
          /\ (score n == hi -> size == 84)%Q)
    /\ (forall (s1 s2 size1 size2 : Q),
          nodeValScale eventNodes (JS.Fin s1) = JS.Fin size1 ->
          nodeValScale eventNodes (JS.Fin s2) = JS.Fin size2 ->
          (s1 <= s2)%Q -> (size1 <= size2)%Q).
Proof.
  intros nodes a b Ha Hb Hab.
  destruct nodes as [| n0 nodes]; [contradiction |].
  destruct (scores_min_max n0 nodes) as [lo [hi [Hlo [Hhi [Hlo_in [Hhi_in Hbounds]]]]]].
  assert (Hlh : (lo < hi)%Q).
  { pose proof (Hbounds a Ha). pose proof (Hbounds b Hb). lra. }
  assert (Hd : ~ (hi - lo == 0)%Q) by (intro H0; lra).
  assert (Hinv : (0 < / (hi - lo))%Q) by (apply Qinv_lt_0_compat; lra).
  assert (Hform : forall s : Q,
             nodeValScale (n0 :: nodes) (JS.Fin s)
             = JS.Fin (60 * ((2 # 5) + (s - lo) / (hi - lo)))).
  { intro s. unfold nodeValScale. cbv zeta. rewrite Hlo, Hhi.
    change (JS.sub (JS.Fin s) (JS.Fin lo)) with (JS.Fin (s - lo)).
    change (JS.sub (JS.Fin hi) (JS.Fin lo)) with (JS.Fin (hi - lo)).
    rewrite (NumFacts.div_Fin _ _ Hd). reflexivity. }
  exists lo, hi. split; [exact Hlh |]. split; [exact Hlo_in |]. split; [exact Hhi_in |].
  split.
  - intros n Hn. rewrite Hform. eexists. split; [reflexivity |]. split; [reflexivity |].
    destruct (Hbounds n Hn) as [Hn1 Hn2].
    assert (Hunit : (0 <= (score n - lo) / (hi - lo) <= 1)%Q).
    { split.
      - apply Qle_shift_div_l; [lra |]. rewrite Qmult_0_l. lra.
      - apply Qle_shift_div_r; [lra |]. rewrite Qmult_1_l. lra. }
    set (t := ((score n - lo) / (hi - lo))%Q) in *.
    split; [lra |]. split; intro Heq.
    + assert (Ht : (t == 0)%Q).
      { unfold t. unfold Qdiv. setoid_replace (score n - lo)%Q with 0%Q by lra.
        apply Qmult_0_l. }
      lra.
    + assert (Ht : (t == 1)%Q).
      { unfold t. setoid_replace (score n - lo)%Q with (hi - lo)%Q by lra.
        field. exact Hd. }
      lra.
  - intros s1 s2 size1 size2 H1 H2 Hle. rewrite Hform in H1, H2.
    injection H1 as <-. injection H2 as <-.
    assert (Hq : ((s1 - lo) / (hi - lo) <= (s2 - lo) / (hi - lo))%Q).
    { unfold Qdiv. apply Qmult_le_compat_r; [lra | apply Qlt_le_weak; exact Hinv]. }
    set (t1 := ((s1 - lo) / (hi - lo))%Q) in *.
    set (t2 := ((s2 - lo) / (hi - lo))%Q) in *. lra.
Qed.

Lemma nodeValScale_spread_witness :
  exists size : Q,
    nodeValScale fifteen (JS.Fin 15) = JS.Fin size /\ (24 <= size <= 84)%Q.
Proof.
  destruct (nodeValScale_spread fifteen (eventAt "event:o" 1 None) (eventAt "event:a" 15 None))
    as [lo [hi [_ [_ [_ [Hsize _]]]]]].
  - vm_compute. tauto.
  - left. reflexivity.
  - reflexivity.
  - destruct (Hsize (eventAt "event:a" 15 None)) as [size [Hs [_ [Hr _]]]].
    + left. reflexivity.
    + exists size. split; [exact Hs | exact Hr].
Defined.

(** ** The horizon and the radius together *)

Lemma futureEventDeltas_In (Date_parse : string -> option Z) (now : Z)
    (nodes : list GraphNode) (n : GraphNode) (ts : Z) :
  In n nodes -> Date_parse (JS.orEmpty (starts_at n)) = Some ts -> (now < ts)%Z ->
  In ((inject_Z ts - inject_Z now) / 1000)%Q (futureEventDeltas Date_parse now nodes).
Proof.
  intros Hn Hp Hlt. unfold futureEventDeltas. apply in_flat_map.
  exists n. split; [exact Hn |]. rewrite Hp.
  apply Z.ltb_lt in Hlt. rewrite Hlt. left. reflexivity.
Qed.

(** X4.  When the horizon and the radius are taken at the same instant, a
    node of the working set that starts more than 7 days ahead is never
    cut by the clamp of the Later band: its delay is at most the horizon
    and its radius is 310 + dt / horizon * 80; the node of the working set
    that starts last sits on the outer edge, at 390. *)
Theorem radiusForTime_within_horizon :
  forall (Date_parse : string -> option Z) (now : Z) (nodes : list GraphNode)
         (n : GraphNode) (ts : Z),
  In n (eventNodes nodes) ->
  Date_parse (JS.orEmpty (starts_at n)) = Some ts ->
  (604800 < secondsUntil now ts)%Q ->
  exists H r : Q,
    horizonSec Date_parse now (eventNodes nodes) = JS.Fin H
    /\ radiusForTime Date_parse now (JS.Fin H) n = JS.Fin r
    /\ (secondsUntil now ts <= H)%Q
    /\ (r == 310 + secondsUntil now ts / H * 80)%Q
    /\ ((forall d, In d (futureEventDeltas Date_parse now (eventNodes nodes)) ->
         (d <= secondsUntil now ts)%Q) ->
        (r == 390)%Q).
Proof.
  intros parse now nodes n ts Hn Hp Hlate.
  destruct (horizonSec_max parse now (eventNodes nodes)) as [H [HH [Hge [Hub Hin]]]].
  assert (Hpos : (0 < H)%Q) by lra.
  destruct (radiusForTime_in_band parse now H n ts Hp Hpos) as [r [Hr Hbands]].
  cbv zeta in Hbands. destruct Hbands as [_ [_ Hlater]].
  destruct (Hlater Hlate) as [Heq _].
  assert (Hfut : (now < ts)%Z).
  { destruct (Z.lt_ge_cases now ts) as [Hlt | Hge']; [exact Hlt |].
    pose proof (secondsUntil_past now ts Hge') as H0. exfalso. lra. }
  assert (Hdt : (secondsUntil now ts == (inject_Z ts - inject_Z now) / 1000)%Q)
    by (apply secondsUntil_future; lia).
  pose proof (futureEventDeltas_In parse now (eventNodes nodes) n ts Hn Hp Hfut) as Hmem.
  assert (Hle : (secondsUntil now ts <= H)%Q).
  { rewrite Hdt. apply Hub. exact Hmem. }
  assert (Hq : (secondsUntil now ts / H <= 1)%Q).
  { apply Qle_shift_div_r; [exact Hpos |]. rewrite Qmult_1_l. exact Hle. }
  exists H, r. split; [exact HH |]. split; [exact Hr |]. split; [exact Hle |].
  split.
  - rewrite Heq. rewrite (Q.min_r 1 _ Hq). setoid_replace (390 - 310)%Q with 80%Q by reflexivity.
    reflexivity.
  - intro Hlast.
    assert (HeqH : (H == secondsUntil now ts)%Q).
    { destruct Hin as [H24 | Hmem'].
      - exfalso. rewrite H24 in Hle. lra.
      - apply Qle_antisym; [apply Hlast; exact Hmem' | exact Hle]. }
    rewrite Heq.
    assert (Hone : (secondsUntil now ts / H == 1)%Q).
    { rewrite HeqH. field. intro Hz. lra. }
    rewrite Hone. reflexivity.
Qed.

Lemma radiusForTime_within_horizon_witness :
  exists H r : Q,
    horizonSec ISO.parse noon (eventNodes [inTwoWeeks; inTenDaysAndAHalf]) = JS.Fin H
    /\ radiusForTime ISO.parse noon (JS.Fin H) inTwoWeeks = JS.Fin r
    /\ (r == 390)%Q.
Proof.
  destruct (radiusForTime_within_horizon ISO.parse noon [inTwoWeeks; inTenDaysAndAHalf]
              inTwoWeeks 1760788800000)
    as [H [r [HH [Hr [_ [_ Hlast]]]]]].
  - vm_compute. right. left. reflexivity.
  - reflexivity.
  - vm_compute. reflexivity.
  - exists H, r. split; [exact HH |]. split; [exact Hr |].
    apply Hlast. intros d Hd. vm_compute in Hd.
    destruct Hd as [<- | [<- | []]]; vm_compute; discriminate.
Defined.

(** ** Enrichment *)

(** X5.  Enriching a node changes nothing of it but the derived event id:
    an event node whose id is [event:] followed by [x] gets the event id
    [x], an event node with any other id gets the id itself, and a node
    that is not an event gets no event id, whatever it came with.
    Enriching twice is enriching once. *)
Theorem enrich_event_id_derived :
  forall n : GraphNode,
  enrich (enrich n) = enrich n
  /\ id (enrich n) = id n /\ type (enrich n) = type n /\ score (enrich n) = score n
  /\ topic (enrich n) = topic n /\ starts_at (enrich n) = starts_at n
  /\ label (enrich n) = label n /\ poster_url (enrich n) = poster_url n
  /\ social_count (enrich n) = social_count n
  /\ (forall x : string,
        type n = Some "event"%string -> id n = Some ("event:" ++ x)%string ->
        event_id (enrich n) = Some x)
  /\ (forall i : string,
        type n = Some "event"%string -> id n = Some i ->
        JS.startsWith i "event:" = false ->
        event_id (enrich n) = Some i)
  /\ (type n <> Some "event"%string -> event_id (enrich n) = None).
Proof.
  intro n. split; [reflexivity |]. repeat (split; [reflexivity |]).
  split; [| split].
  - intros x Hty Hid. unfold enrich, isEvent. cbn [event_id]. rewrite Hty, Hid.
    cbn. destruct x; reflexivity.
  - intros i Hty Hid Hpre. unfold enrich, isEvent. cbn [event_id]. rewrite Hty, Hid.
    change (String.eqb "event" "event") with true. cbv iota.
    cbn [JS.toString]. rewrite Hpre. reflexivity.
  - intro Hty. unfold enrich, isEvent. cbn [event_id].
    destruct (type n) as [t |]; [| reflexivity].
    destruct (String.eqb t "event") eqn:E; [| reflexivity].
    apply String.eqb_eq in E. subst t. contradiction Hty. reflexivity.
Qed.

Lemma enrich_event_id_derived_witness :
  event_id (enrich inTwoHours) = Some "1"%string
  /\ event_id (enrich (eventAt "42" 1 None)) = Some "42"%string
  /\ event_id (enrich aPerson) = None.
Proof.
  split; [| split].
  - destruct (enrich_event_id_derived inTwoHours) as [_ [_ [_ [_ [_ [_ [_ [_ [_ [H _]]]]]]]]]].
    apply (H "1"%string); reflexivity.
  - destruct (enrich_event_id_derived (eventAt "42" 1 None))
      as [_ [_ [_ [_ [_ [_ [_ [_ [_ [_ [H _]]]]]]]]]]].
    apply (H "42"%string); reflexivity.
  - destruct (enrich_event_id_derived aPerson) as [_ [_ [_ [_ [_ [_ [_ [_ [_ [_ [_ H]]]]]]]]]]].
    apply H. discriminate.
Defined.

(** X6.  Every node of the working set of an enriched payload carries a
    derived event id, and a click on it navigates with that id unless the
    id is empty: the callback gets the id when it is supplied, the
    location the event page's path otherwise. *)
Theorem handleNodeClick_on_working_set :
  forall (encodeURIComponent : string -> string) (Action : Type)
         (onEventClick : option (string -> Action))
         (payload : list GraphNode) (n : GraphNode),
  In n (eventNodes (enriched payload)) ->
  exists eid : string,
    event_id n = Some eid
    /\ (eid <> ""%string ->
        handleNodeClick encodeURIComponent Action onEventClick n
        = Some (match onEventClick with
                | Some callback => Invoke Action (callback eid)
                | None => Navigate Action ("/events/eventpage/" ++ encodeURIComponent eid)
                end))
    /\ (eid = ""%string ->
        handleNodeClick encodeURIComponent Action onEventClick n = None).
Proof.
  intros enc Action cb payload n Hn.
  rewrite enriched_eventNodes in Hn. apply in_map_iff in Hn.
  destruct Hn as [m [<- Hm]].
  apply eventNodes_are_events in Hm. destruct Hm as [Hty _].
  assert (Hev : isEvent m = true) by (unfold isEvent; rewrite Hty; reflexivity).
  assert (Hev' : isEvent (enrich m) = true) by exact Hev.
  unfold handleNodeClick. rewrite Hev'.
  unfold enrich at 1. cbn [event_id]. rewrite Hev.
  eexists. split; [reflexivity |].
  unfold enrich. cbn [event_id]. rewrite Hev.
  set (eid := if JS.startsWith (JS.toString (id m)) "event:"
              then JS.slice 6 (JS.toString (id m)) else JS.toString (id m)).
  split; intro He.
  - destruct eid as [| c e]; [contradiction He; reflexivity |].
    cbn [JS.truthy andb JS.orEmpty JS.toString]. destruct cb; reflexivity.
  - rewrite He. reflexivity.
Qed.

Lemma handleNodeClick_on_working_set_witness :
  exists eid : string,
    event_id (enrich inTwoHours) = Some eid
    /\ handleNodeClick (fun u => u) unit None (enrich inTwoHours)
       = Some (Navigate unit ("/events/eventpage/" ++ eid)).
Proof.
  destruct (handleNodeClick_on_working_set (fun u => u) unit None
              [aPerson; inTwoHours] (enrich inTwoHours))
    as [eid [He [Hnav _]]].
  - vm_compute. left. reflexivity.
  - exists eid. split; [exact He |]. apply Hnav.
    intro Hz. rewrite Hz in He. discriminate He.
Defined.

(** ** The legend *)

Section LegendFacts.

Lemma trimStart_head (u : string) (c : ascii) (rest : string) :
  JS.trimStart u = String c rest -> JS.isWhiteSpace c = false.
Proof.
  induction u as [| d u IH]; cbn [JS.trimStart]; [discriminate |].
  destruct (JS.isWhiteSpace d) eqn:E; [exact IH |].
  intros [= <- _]. exact E.
Qed.

Lemma trimEnd_head (c : ascii) (rest : string) :
  JS.isWhiteSpace c = false -> exists rest', JS.trimEnd (String c rest) = String c rest'.
Proof.
  intro Hc. cbn [JS.trimEnd]. destruct (JS.trimEnd rest) as [| d rest'].
  - rewrite Hc. exists EmptyString. reflexivity.
  - exists (String d rest'). reflexivity.
Qed.

Lemma trimEnd_idempotent (u : string) : JS.trimEnd (JS.trimEnd u) = JS.trimEnd u.
Proof.
  induction u as [| c u IH]; [reflexivity |].
  cbn [JS.trimEnd]. destruct (JS.trimEnd u) as [| d rest] eqn:E.
  - destruct (JS.isWhiteSpace c) eqn:Hc; [reflexivity |].
    cbn [JS.trimEnd]. rewrite Hc. reflexivity.
  - change (JS.trimEnd (String c (String d rest)))
      with (match JS.trimEnd (String d rest) with
            | EmptyString => if JS.isWhiteSpace c then EmptyString else String c EmptyString
            | String _ _ as rest'' => String c rest''
            end).
    rewrite IH. reflexivity.
Qed.

Lemma trim_idempotent (u : string) : JS.trim (JS.trim u) = JS.trim u.
Proof.
  unfold JS.trim. destruct (JS.trimStart u) as [| c rest] eqn:E; [reflexivity |].
  pose proof (trimStart_head u c rest E) as Hc.
  destruct (trimEnd_head c rest Hc) as [rest' Hr]. rewrite Hr.
  cbn [JS.trimStart]. rewrite Hc. rewrite <- Hr. apply trimEnd_idempotent.
Qed.

Lemma setFrom_In (xs seen : list string) (x : string) :
  In x (JS.setFrom seen xs) <-> In x xs /\ ~ In x seen.
Proof.
  revert seen. induction xs as [| y xs IH]; intro seen; cbn [JS.setFrom].
  - split; [intros [] | intros [[] _]].
  - destruct (existsb (String.eqb y) seen) eqn:E.
    + apply existsb_exists in E. destruct E as [z [Hz Hyz]].
      apply String.eqb_eq in Hyz. subst z.
      rewrite IH. split.
      * intros [Hx Hs]. split; [right; exact Hx | exact Hs].
      * intros [[Hx | Hx] Hs]; [subst y; contradiction | split; assumption].
    + assert (Hnot : ~ In y seen).
      { intro Hy. assert (Ht : existsb (String.eqb y) seen = true).
        { apply existsb_exists. exists y. split; [exact Hy | apply String.eqb_refl]. }
        congruence. }
      cbn [In]. rewrite IH. cbn [In]. split.
      * intros [Hx | [Hx Hs]].
        -- subst y. split; [left; reflexivity | exact Hnot].
        -- split; [right; exact Hx | intro H; apply Hs; right; exact H].
      * intros [[Hx | Hx] Hs]; [left; exact Hx |].
        destruct (string_dec y x) as [Heq | Hne]; [left; exact Heq |].
        right. split; [exact Hx |]. intros [H | H]; [contradiction | contradiction].
Qed.

Lemma setFrom_NoDup (xs seen : list string) : NoDup (JS.setFrom seen xs).
Proof.
  revert seen. induction xs as [| y xs IH]; intro seen; cbn [JS.setFrom]; [constructor |].
  destruct (existsb (String.eqb y) seen); [apply IH |].
  constructor; [| apply IH].
  rewrite setFrom_In. intros [_ H]. apply H. left. reflexivity.
Qed.

Lemma setFrom_length (xs seen : list string) :
  (List.length (JS.setFrom seen xs) <= List.length xs)%nat.
Proof.
  revert seen. induction xs as [| y xs IH]; intro seen; cbn [JS.setFrom List.length]; [lia |].
  destruct (existsb (String.eqb y) seen); [specialize (IH seen) | specialize (IH (y :: seen))];
    cbn [List.length]; lia.
Qed.

(** Sorting rearranges, whatever the comparator. *)
Lemma sort_Permutation_any {A : Type} (cmp : A -> A -> Q) (xs : list A) :
  Permutation (JS.sort cmp xs) xs.
Proof.
  assert (Hins : forall x ys, Permutation (JS.insert cmp x ys) (x :: ys)).
  { intros x ys. induction ys as [| y ys IH]; cbn [JS.insert]; [apply Permutation_refl |].
    destruct (Qle_bool (cmp x y) 0); [apply Permutation_refl |].
    apply perm_trans with (y :: x :: ys); [apply perm_skip; exact IH | apply perm_swap]. }
  induction xs as [| x xs IH]; [apply perm_nil |].
  cbn [JS.sort fold_right]. fold (JS.sort cmp xs).
  apply perm_trans with (x :: JS.sort cmp xs); [apply Hins | apply perm_skip; exact IH].
Qed.

End LegendFacts.

(** X7.  The legend lists each topic of the working set once: the list
    has no duplicates, holds exactly the trimmed topics of the nodes of the
    set ("Other" for a node without topic), and is no longer than the set.
    The chips shown and the overflow counter add up to its length, and with
    the ten nodes the working set can hold the counter is at most 5. *)
Theorem topicList_lists_each_topic_once :
  forall (localeCompare : string -> string -> Q) (nodes : list GraphNode),
  let legend := topicList localeCompare (eventNodes nodes) in
  NoDup legend
  /\ (forall t : string,
        In t legend <-> exists n, In n (eventNodes nodes) /\ legendTopic n = t)
  /\ (List.length legend <= List.length (eventNodes nodes))%nat
  /\ (Z.of_nat (List.length (topicChips legend)) + moreCount legend
      = Z.of_nat (List.length legend))%Z
  /\ (List.length (topicChips legend) <= 5)%nat
  /\ (0 <= moreCount legend <= 5)%Z.
Proof.
  intros cmp nodes legend.
  set (ws := eventNodes nodes) in *.
  pose proof (sort_Permutation_any (fun a b => cmp a b)
                (JS.setFrom [] (map legendTopic ws))) as Hperm.
  fold (topicList cmp ws) in Hperm. fold legend in Hperm.
  assert (Hlen : (List.length legend <= List.length ws)%nat).
  { rewrite (Permutation_length Hperm).
    pose proof (setFrom_length (map legendTopic ws) []) as H.
    rewrite length_map in H. exact H. }
  assert (Hws : (List.length ws <= 10)%nat).
  { unfold ws, eventNodes. cbv zeta. rewrite length_firstn. apply Nat.le_min_l. }
  split.
  { apply (Permutation_NoDup (Permutation_sym Hperm)). apply setFrom_NoDup. }
  split.
  { intro t. split.
    - intro Ht. apply (Permutation_in t Hperm) in Ht. apply setFrom_In in Ht.
      destruct Ht as [Ht _]. apply in_map_iff in Ht. destruct Ht as [n [Hn Hin]].
      exists n. split; assumption.
    - intros [n [Hin Hn]]. apply (Permutation_in t (Permutation_sym Hperm)).
      apply setFrom_In. split; [| intros []].
      apply in_map_iff. exists n. split; assumption. }
  split; [exact Hlen |].
  unfold topicChips, moreCount. rewrite length_firstn.
  repeat split; lia.
Qed.

(** X8.  The chip of a topic in the legend has the colour the nodes of
    that topic are drawn with: [topicColor] of the topic a node is listed
    under is [topicColor] of the node's own topic, the reserved colour for
    a node without topic included. *)
Theorem legend_colour_is_node_colour :
  forall n : GraphNode, topicColor (Some (legendTopic n)) = topicColor (topic n).
Proof.
  intro n. unfold legendTopic.
  destruct (topic n) as [[| c rest] |]; [reflexivity | | reflexivity].
  cbn [JS.truthy JS.toString].
  set (u := String c rest).
  unfold topicColor at 2. cbn [JS.truthy negb JS.toString]. fold u.
  unfold topicColor.
  destruct (JS.trim u) as [| d rest'] eqn:E; [reflexivity |].
  cbn [JS.truthy negb JS.toString]. rewrite <- E. rewrite trim_idempotent. reflexivity.
Qed.

(** ** Hexadecimal colours *)

Lemma hexDigit_range (c : ascii) (d : Z) : hexDigit c = Some d -> (0 <= d <= 15)%Z.
Proof.
  unfold hexDigit. cbv zeta.
  destruct ((48 <=? JS.charCode c) && (JS.charCode c <=? 57)) eqn:E1.
  { intros [= <-]. lia. }
  destruct ((97 <=? JS.charCode c) && (JS.charCode c <=? 102)) eqn:E2.
  { intros [= <-]. lia. }
  destruct ((65 <=? JS.charCode c) && (JS.charCode c <=? 70)) eqn:E3.
  { intros [= <-]. lia. }
  discriminate.
Qed.

Lemma hexPair_range (c1 c2 : ascii) (v : Z) : hexPair c1 c2 = Some v -> (0 <= v <= 255)%Z.
Proof.
  unfold hexPair.
  destruct (hexDigit c1) as [d1 |] eqn:E1; [| discriminate].
  destruct (hexDigit c2) as [d2 |] eqn:E2; [| discriminate].
  intro H. injection H as Hv. subst v.
  apply hexDigit_range in E1. apply hexDigit_range in E2. lia.
Qed.

Lemma hexDigit_lowerChar (c : ascii) : hexDigit (JS.lowerChar c) = hexDigit c.
Proof. destruct c as [[] [] [] [] [] [] [] []]; reflexivity. Qed.

Lemma lowerChar_hash (c : ascii) : Ascii.eqb (JS.lowerChar c) "#" = Ascii.eqb c "#".
Proof. destruct c as [[] [] [] [] [] [] [] []]; reflexivity. Qed.

Lemma list_ascii_toLowerCase (u : string) :
  list_ascii_of_string (JS.toLowerCase u) = map JS.lowerChar (list_ascii_of_string u).
Proof.
  induction u as [| c u IH]; [reflexivity |].
  cbn [JS.toLowerCase list_ascii_of_string map]. rewrite IH. reflexivity.
Qed.

(** The six digits, whatever their case. *)
Lemma hexDigits_lowerCase (u : string) :
  match list_ascii_of_string (JS.toLowerCase u) with
  | [r1; r2; g1; g2; b1; b2] =>
      match hexPair r1 r2, hexPair g1 g2, hexPair b1 b2 with
      | Some r, Some g, Some b => Some (mkRGB r g b)
      | _, _, _ => None
      end
  | _ => None
  end
  = match list_ascii_of_string u with
    | [r1; r2; g1; g2; b1; b2] =>
        match hexPair r1 r2, hexPair g1 g2, hexPair b1 b2 with
        | Some r, Some g, Some b => Some (mkRGB r g b)
        | _, _, _ => None
        end
    | _ => None
    end.
Proof.
  rewrite list_ascii_toLowerCase.
  destruct (list_ascii_of_string u) as [| c1 [| c2 [| c3 [| c4 [| c5 [| c6 [| c7 cs]]]]]]];
    try reflexivity.
  cbn [map]. unfold hexPair. rewrite !hexDigit_lowerChar. reflexivity.
Qed.

(** The digits are those of the Standard Library's hexadecimal notation:
    [0] to [9], [a] to [f] and [A] to [F], with their values. *)
Lemma hexDigit_ascii_to_digit (c : ascii) :
  hexDigit c = option_map Z.of_N (HexString.ascii_to_digit c).
Proof. destruct c as [[] [] [] [] [] [] [] []]; reflexivity. Qed.

Lemma hexPair_digits (c1 c2 : ascii) (v : Z) :
  hexPair c1 c2 = Some v
  <-> exists d1 d2 : N,
        HexString.ascii_to_digit c1 = Some d1 /\ HexString.ascii_to_digit c2 = Some d2
        /\ v = Z.of_N (16 * d1 + d2).
Proof.
  unfold hexPair. rewrite !hexDigit_ascii_to_digit.
  destruct (HexString.ascii_to_digit c1) as [d1 |];
    destruct (HexString.ascii_to_digit c2) as [d2 |]; cbn [option_map]; split.
  - intros [= <-]. exists d1, d2. repeat split. lia.
  - intros [e1 [e2 [[= <-] [[= <-] ->]]]]. f_equal. lia.
  - discriminate.
  - intros [e1 [e2 [_ [H _]]]]. discriminate.
  - discriminate.
  - intros [e1 [e2 [H _]]]. discriminate.
  - discriminate.
  - intros [e1 [e2 [H _]]]. discriminate.
Qed.

(** What [hexToRgb] matches: six characters, after a [#] or not, that pair
    up into three numbers. *)
Lemma hexToRgb_shape (hex : string) (rgb : RGB) :
  hexToRgb hex = Some rgb
  <-> exists c1 c2 c3 c4 c5 c6 : ascii,
        (hex = string_of_list_ascii [c1; c2; c3; c4; c5; c6]
         \/ hex = String "#" (string_of_list_ascii [c1; c2; c3; c4; c5; c6]))
        /\ hexPair c1 c2 = Some (r rgb) /\ hexPair c3 c4 = Some (g rgb)
        /\ hexPair c5 c6 = Some (b rgb).
Proof.
  split.
  - unfold hexToRgb. cbv zeta.
    set (digits := match hex with
                   | String c rest => if Ascii.eqb c "#" then rest else hex
                   | EmptyString => hex
                   end).
    assert (Hd : hex = digits \/ hex = String "#" digits).
    { unfold digits. destruct hex as [| c rest]; [left; reflexivity |].
      destruct (Ascii.eqb c "#") eqn:E; [right | left; reflexivity].
      apply Ascii.eqb_eq in E. subst c. reflexivity. }
    pose proof (string_of_list_ascii_of_string digits) as Hs.
    destruct (list_ascii_of_string digits)
      as [| c1 [| c2 [| c3 [| c4 [| c5 [| c6 [| c7 cs]]]]]]]; try discriminate.
    destruct (hexPair c1 c2) as [vr |] eqn:Er; [| discriminate].
    destruct (hexPair c3 c4) as [vg |] eqn:Eg; [| discriminate].
    destruct (hexPair c5 c6) as [vb |] eqn:Eb; [| discriminate].
    intros [= <-]. cbn [r g b].
    exists c1, c2, c3, c4, c5, c6. rewrite Hs.
    split; [exact Hd |]. split; [exact Er |]. split; [exact Eg | exact Eb].
  - intros [c1 [c2 [c3 [c4 [c5 [c6 [Hhex [Hr [Hg Hb]]]]]]]]].
    assert (Hsix : match list_ascii_of_string
                           (string_of_list_ascii [c1; c2; c3; c4; c5; c6]) with
                   | [r1; r2; g1; g2; b1; b2] =>
                       match hexPair r1 r2, hexPair g1 g2, hexPair b1 b2 with
                       | Some r, Some g, Some b => Some (mkRGB r g b)
                       | _, _, _ => None
                       end
                   | _ => None
                   end = Some rgb).
    { rewrite list_ascii_of_string_of_list_ascii. rewrite Hr, Hg, Hb.
      destruct rgb; reflexivity. }
    destruct Hhex as [-> | ->]; unfold hexToRgb; cbv zeta.
    + cbn [string_of_list_ascii] in *.
      destruct (Ascii.eqb c1 "#") eqn:E; [| exact Hsix].
      apply Ascii.eqb_eq in E. subst c1. discriminate Hr.
    + exact Hsix.
Qed.

(** X9.  [hexToRgb] accepts a string of six hexadecimal digits, with or
    without a leading [#], and nothing else: it returns a colour exactly
    for the strings made of an optional [#] and six characters that are
    each a hexadecimal digit, of either case, and each component is then
    sixteen times the first digit of its pair plus the second.  What it
    returns has its three components between 0 and 255, and the string has
    six or seven code units.  The case of the digits does not matter.  It
    accepts every colour of the topic palette and the reserved colour. *)
Theorem hexToRgb_components :
  forall hex : string,
  (forall rgb : RGB,
      hexToRgb hex = Some rgb
      <-> exists (c1 c2 c3 c4 c5 c6 : ascii) (d1 d2 d3 d4 d5 d6 : N),
            (hex = string_of_list_ascii [c1; c2; c3; c4; c5; c6]
             \/ hex = String "#" (string_of_list_ascii [c1; c2; c3; c4; c5; c6]))
            /\ HexString.ascii_to_digit c1 = Some d1
            /\ HexString.ascii_to_digit c2 = Some d2
            /\ HexString.ascii_to_digit c3 = Some d3
            /\ HexString.ascii_to_digit c4 = Some d4
            /\ HexString.ascii_to_digit c5 = Some d5
            /\ HexString.ascii_to_digit c6 = Some d6
            /\ rgb = mkRGB (Z.of_N (16 * d1 + d2)) (Z.of_N (16 * d3 + d4))
                           (Z.of_N (16 * d5 + d6)))
  /\ (forall rgb : RGB,
      hexToRgb hex = Some rgb ->
      (0 <= r rgb <= 255)%Z /\ (0 <= g rgb <= 255)%Z /\ (0 <= b rgb <= 255)%Z
      /\ (String.length hex = 6%nat \/ String.length hex = 7%nat))
  /\ hexToRgb (JS.toLowerCase hex) = hexToRgb hex
  /\ (In hex (OTHER_TOPIC_COLOR :: TOPIC_COLORS) -> hexToRgb hex <> None).
Proof.
  intro hex. split; [| split; [| split]].
  - intro rgb. rewrite hexToRgb_shape. split.
    + intros [c1 [c2 [c3 [c4 [c5 [c6 [Hhex [Hr [Hg Hb]]]]]]]]].
      apply hexPair_digits in Hr. destruct Hr as [d1 [d2 [H1 [H2 Hr]]]].
      apply hexPair_digits in Hg. destruct Hg as [d3 [d4 [H3 [H4 Hg]]]].
      apply hexPair_digits in Hb. destruct Hb as [d5 [d6 [H5 [H6 Hb]]]].
      exists c1, c2, c3, c4, c5, c6, d1, d2, d3, d4, d5, d6.
      repeat (split; [assumption |]).
      destruct rgb as [vr vg vb]. cbn [r g b] in Hr, Hg, Hb. subst. reflexivity.
    + intros [c1 [c2 [c3 [c4 [c5 [c6 [d1 [d2 [d3 [d4 [d5 [d6
               [Hhex [H1 [H2 [H3 [H4 [H5 [H6 ->]]]]]]]]]]]]]]]]]]].
      exists c1, c2, c3, c4, c5, c6. split; [exact Hhex |]. cbn [r g b].
      split; [| split]; apply hexPair_digits; eexists; eexists;
        (split; [eassumption | split; [eassumption | reflexivity]]).
  - intros rgb. unfold hexToRgb. cbv zeta.
    set (digits := match hex with
                   | String c rest => if Ascii.eqb c "#" then rest else hex
                   | EmptyString => hex
                   end).
    assert (Hlen : String.length hex = String.length digits
                   \/ String.length hex = S (String.length digits)).
    { unfold digits. destruct hex as [| c rest]; [left; reflexivity |].
      destruct (Ascii.eqb c "#"); [right | left]; reflexivity. }
    assert (Hl : String.length digits = List.length (list_ascii_of_string digits)).
    { clear. induction digits as [| c u IH]; [reflexivity |].
      cbn [String.length list_ascii_of_string List.length]. rewrite IH. reflexivity. }
    destruct (list_ascii_of_string digits)
      as [| c1 [| c2 [| c3 [| c4 [| c5 [| c6 [| c7 cs]]]]]]]; try discriminate.
    destruct (hexPair c1 c2) as [vr |] eqn:Er; [| discriminate].
    destruct (hexPair c3 c4) as [vg |] eqn:Eg; [| discriminate].
    destruct (hexPair c5 c6) as [vb |] eqn:Eb; [| discriminate].
    intros [= <-]. cbn [r g b].
    apply hexPair_range in Er. apply hexPair_range in Eg. apply hexPair_range in Eb.
    cbn [List.length] in Hl.
    repeat split; try lia.
  - unfold hexToRgb. cbv zeta. destruct hex as [| c rest]; [reflexivity |].
    cbn [JS.toLowerCase]. rewrite lowerChar_hash.
    destruct (Ascii.eqb c "#").
    + apply hexDigits_lowerCase.
    + apply (hexDigits_lowerCase (String c rest)).
  - cbn [In OTHER_TOPIC_COLOR TOPIC_COLORS].
    intros H. repeat (destruct H as [<- | H]; [discriminate |]). contradiction.
Qed.

Lemma hexToRgb_components_witness :
  exists rgb : RGB,
    hexToRgb "#1B9e77" = Some rgb
    /\ (0 <= r rgb <= 255)%Z /\ (0 <= g rgb <= 255)%Z /\ (0 <= b rgb <= 255)%Z.
Proof.
  exists (mkRGB 27 158 119).
  destruct (hexToRgb_components "#1B9e77") as [_ [H _]].
  destruct (H (mkRGB 27 158 119) eq_refl) as [Hr [Hg [Hb _]]].
  split; [reflexivity |]. split; [exact Hr |]. split; [exact Hg | exact Hb].
Defined.

(** ** Hue, saturation, lightness *)

Lemma Qdiv_unit_bounds (x d : Q) :
  (0 < d)%Q -> (- d <= x <= d)%Q -> (- (1) <= x / d <= 1)%Q.
Proof.
  intros Hd [Hlo Hhi]. split.
  - apply Qle_shift_div_l; [exact Hd | lra].
  - apply Qle_shift_div_r; [exact Hd | lra].
Qed.

Lemma Qdiv_neg (x d : Q) : (0 < d)%Q -> (x < 0)%Q -> (x / d < 0)%Q.
Proof.
  intros Hd Hx. apply Qlt_shift_div_r; [exact Hd | lra].
Qed.

Lemma Qdiv_nonneg (x d : Q) : (0 < d)%Q -> (0 <= x)%Q -> (0 <= x / d)%Q.
Proof.
  intros Hd Hx. apply Qle_shift_div_l; [exact Hd | lra].
Qed.

Lemma eqb_Fin_refl (q : Q) : JS.eqb (JS.Fin q) (JS.Fin q) = true.
Proof. apply Qeq_bool_iff. reflexivity. Qed.

(** The channels of a colour, scaled to the unit interval. *)
Lemma channel_unit (v : Z) : (0 <= v <= 255)%Z -> (0 <= inject_Z v / 255 <= 1)%Q.
Proof.
  intros [H0 H1]. rewrite Zle_Qle in H0, H1.
  change (inject_Z 0) with 0%Q in H0. change (inject_Z 255) with 255%Q in H1.
  unfold Qdiv. change (/ 255)%Q with (1 # 255)%Q. lra.
Qed.

Lemma rgbToHsl_unit (R G B : Q) :
  (0 <= R <= 1)%Q -> (0 <= G <= 1)%Q -> (0 <= B <= 1)%Q ->
  forall (rn gn bn : JS.number),
  (rn / JS.ofZ 255)%num = JS.Fin R -> (gn / JS.ofZ 255)%num = JS.Fin G ->
  (bn / JS.ofZ 255)%num = JS.Fin B ->
  exists hue sat light : Q,
    rgbToHsl rn gn bn = mkHSL (JS.Fin hue) (JS.Fin sat) (JS.Fin light)
    /\ (0 <= hue < 360)%Q /\ (0 <= sat <= 1)%Q /\ (0 <= light <= 1)%Q
    /\ (R == G -> G == B -> hue == 0 /\ sat == 0 /\ light == R)%Q.
Proof.
  intros HR HG HB rn gn bn Er Eg Eb.
  unfold rgbToHsl. rewrite Er, Eg, Eb. cbv zeta.
  destruct (NumFacts.Math_max_Fin R [G; B]) as [M [HM [HMin HMle]]].
  destruct (NumFacts.Math_min_Fin R [G; B]) as [m [Hm [Hmin Hmle]]].
  cbn [map] in HM, Hm. rewrite HM, Hm.
  assert (HRM : (m <= R <= M)%Q) by (split; [apply Hmle | apply HMle]; cbn; tauto).
  assert (HGM : (m <= G <= M)%Q) by (split; [apply Hmle | apply HMle]; cbn; tauto).
  assert (HBM : (m <= B <= M)%Q) by (split; [apply Hmle | apply HMle]; cbn; tauto).
  assert (HM1 : (M <= 1)%Q).
  { destruct HMin as [<- | [<- | [<- | []]]]; lra. }
  assert (Hm0 : (0 <= m)%Q).
  { destruct Hmin as [<- | [<- | [<- | []]]]; lra. }
  change (JS.eqb (JS.Fin M) (JS.Fin m)) with (Qeq_bool M m).
  change ((JS.Fin M + JS.Fin m) / JS.ofZ 2)%num with (JS.Fin ((M + m) / 2)).
  assert (Hhalf : ((M + m) / 2 == (M + m) * (1 # 2))%Q) by reflexivity.
  destruct (Qeq_bool M m) eqn:EMm; cbn [negb].
  { apply Qeq_bool_iff in EMm.
    exists (0 * 360)%Q, 0%Q, ((M + m) / 2)%Q.
    split; [reflexivity |]. rewrite Hhalf.
    split; [split; [discriminate | reflexivity] |].
    split; [split; discriminate |]. split; [lra |].
    intros _ _. split; [reflexivity |]. split; [reflexivity | lra]. }
  assert (Hlt : (m < M)%Q).
  { destruct (Qlt_le_dec m M) as [H | H]; [exact H |].
    assert (Heq : (M == m)%Q) by lra.
    apply Qeq_bool_iff in Heq. congruence. }
  set (d := (M - m)%Q).
  assert (Hd : (0 < d)%Q) by (unfold d; lra).
  assert (Hdz : ~ (d == 0)%Q) by (intro Hz; lra).
  change (JS.Fin M - JS.Fin m)%num with (JS.Fin d).
  (* saturation *)
  assert (Hsat : exists sat : Q,
             (if (JS.Fin ((M + m) / 2) >? JS.Fin (1 # 2))%num
              then (JS.Fin d / (JS.ofZ 2 - JS.Fin M - JS.Fin m))%num
              else (JS.Fin d / (JS.Fin M + JS.Fin m))%num) = JS.Fin sat
             /\ (0 <= sat <= 1)%Q).
  { destruct (JS.gtb (JS.Fin ((M + m) / 2)) (JS.Fin (1 # 2))) eqn:El.
    - apply NumFacts.gtb_Fin in El. rewrite Hhalf in El.
      change (JS.ofZ 2 - JS.Fin M - JS.Fin m)%num with (JS.Fin (2 - M - m)).
      assert (Hden : (0 < 2 - M - m)%Q) by lra.
      rewrite NumFacts.div_Fin by (intro Hz; lra).
      eexists. split; [reflexivity |]. split.
      + apply Qdiv_nonneg; lra.
      + apply Qle_shift_div_r; [exact Hden |]. unfold d. lra.
    - change (JS.Fin M + JS.Fin m)%num with (JS.Fin (M + m)).
      assert (Hden : (0 < M + m)%Q) by lra.
      rewrite NumFacts.div_Fin by (intro Hz; lra).
      eexists. split; [reflexivity |]. split.
      + apply Qdiv_nonneg; lra.
      + apply Qle_shift_div_r; [exact Hden |]. unfold d. lra. }
  destruct Hsat as [sat [Esat Hsat]]. rewrite Esat.
  (* hue, in sixths of the circle *)
  assert (Hhue : exists sixth : Q,
             (if JS.eqb (JS.Fin M) (JS.Fin R)
              then ((JS.Fin G - JS.Fin B) / JS.Fin d
                    + (if JS.ltb (JS.Fin G) (JS.Fin B) then JS.ofZ 6 else JS.ofZ 0))%num
              else if JS.eqb (JS.Fin M) (JS.Fin G)
                   then ((JS.Fin B - JS.Fin R) / JS.Fin d + JS.ofZ 2)%num
                   else if JS.eqb (JS.Fin M) (JS.Fin B)
                        then ((JS.Fin R - JS.Fin G) / JS.Fin d + JS.ofZ 4)%num
                        else JS.ofZ 0) = JS.Fin sixth
             /\ (0 <= sixth < 6)%Q).
  { change (JS.Fin G - JS.Fin B)%num with (JS.Fin (G - B)).
    change (JS.Fin B - JS.Fin R)%num with (JS.Fin (B - R)).
    change (JS.Fin R - JS.Fin G)%num with (JS.Fin (R - G)).
    rewrite !(NumFacts.div_Fin _ d Hdz).
    pose proof (Qdiv_unit_bounds (G - B) d Hd ltac:(unfold d; lra)) as Hgb.
    pose proof (Qdiv_unit_bounds (B - R) d Hd ltac:(unfold d; lra)) as Hbr.
    pose proof (Qdiv_unit_bounds (R - G) d Hd ltac:(unfold d; lra)) as Hrg.
    destruct (JS.eqb (JS.Fin M) (JS.Fin R)) eqn:E1.
    - unfold JS.ltb. destruct (JS.gtb (JS.Fin B) (JS.Fin G)) eqn:E2.
      + apply NumFacts.gtb_Fin in E2.
        pose proof (Qdiv_neg (G - B) d Hd ltac:(lra)) as Hneg.
        eexists. split; [reflexivity |].
        change (inject_Z 6) with 6%Q. set (t := ((G - B) / d)%Q) in *. lra.
      + apply NumFacts.gtb_Fin_false in E2.
        pose proof (Qdiv_nonneg (G - B) d Hd ltac:(lra)) as Hpos.
        eexists. split; [reflexivity |].
        change (inject_Z 0) with 0%Q. set (t := ((G - B) / d)%Q) in *. lra.
    - destruct (JS.eqb (JS.Fin M) (JS.Fin G)) eqn:E2.
      + eexists. split; [reflexivity |].
        change (inject_Z 2) with 2%Q. set (t := ((B - R) / d)%Q) in *. lra.
      + destruct (JS.eqb (JS.Fin M) (JS.Fin B)) eqn:E3.
        * eexists. split; [reflexivity |].
          change (inject_Z 4) with 4%Q. set (t := ((R - G) / d)%Q) in *. lra.
        * exists 0%Q. split; [reflexivity | lra]. }
  destruct Hhue as [sixth [Ehue Hhue]]. rewrite Ehue.
  change (JS.Fin sixth / JS.ofZ 6 * JS.ofZ 360)%num with (JS.Fin (sixth / 6 * 360)).
  exists (sixth / 6 * 360)%Q, sat, ((M + m) / 2)%Q.
  split; [reflexivity |].
  split; [unfold Qdiv; change (/ 6)%Q with (1 # 6)%Q; lra |].
  split; [exact Hsat |]. split; [rewrite Hhalf; lra |].
  intros HRG HGB. exfalso.
  assert (HMm : (M == m)%Q).
  { destruct HMin as [<- | [<- | [<- | []]]]; destruct Hmin as [<- | [<- | [<- | []]]]; lra. }
  lra.
Qed.

(** X10.  On three channels between 0 and 255 [rgbToHsl] returns ordinary
    numbers: a hue of at least 0 and less than 360, a saturation and a
    lightness between 0 and 1; a grey (three equal channels) has hue 0 and
    saturation 0. *)
Theorem rgbToHsl_ranges :
  forall rv gv bv : Z,
  (0 <= rv <= 255)%Z -> (0 <= gv <= 255)%Z -> (0 <= bv <= 255)%Z ->
  exists hue sat light : Q,
    rgbToHsl (JS.ofZ rv) (JS.ofZ gv) (JS.ofZ bv)
    = mkHSL (JS.Fin hue) (JS.Fin sat) (JS.Fin light)
    /\ (0 <= hue < 360)%Q /\ (0 <= sat <= 1)%Q /\ (0 <= light <= 1)%Q
    /\ (rv = gv -> gv = bv -> (hue == 0 /\ sat == 0 /\ light == inject_Z rv / 255)%Q).
Proof.
  intros rv gv bv Hr Hg Hb.
  destruct (rgbToHsl_unit (inject_Z rv / 255) (inject_Z gv / 255) (inject_Z bv / 255)
              (channel_unit rv Hr) (channel_unit gv Hg) (channel_unit bv Hb)
              (JS.ofZ rv) (JS.ofZ gv) (JS.ofZ bv) eq_refl eq_refl eq_refl)
    as [hue [sat [light [Heq [Hh [Hs [Hl Hgrey]]]]]]].
  exists hue, sat, light. repeat (split; [assumption |]).
  intros -> ->. apply Hgrey; reflexivity.
Qed.

Lemma rgbToHsl_ranges_witness :
  exists hue sat light : Q,
    rgbToHsl (JS.ofZ 27) (JS.ofZ 158) (JS.ofZ 119)
    = mkHSL (JS.Fin hue) (JS.Fin sat) (JS.Fin light)
    /\ (0 <= hue < 360)%Q /\ (0 <= sat <= 1)%Q /\ (0 <= light <= 1)%Q.
Proof.
  destruct (rgbToHsl_ranges 27 158 119) as [hue [sat [light [Heq [Hh [Hs [Hl _]]]]]]];
    try lia.
  exists hue, sat, light. repeat (split; [assumption |]). exact Hl.
Defined.

(** ** Saturating a colour *)

Lemma hexToRgb_bounds (hex : string) (rgb : RGB) :
  hexToRgb hex = Some rgb ->
  (0 <= r rgb <= 255)%Z /\ (0 <= g rgb <= 255)%Z /\ (0 <= b rgb <= 255)%Z.
Proof.
  unfold hexToRgb. cbv zeta.
  destruct (list_ascii_of_string _)
    as [| c1 [| c2 [| c3 [| c4 [| c5 [| c6 [| c7 cs]]]]]]]; try discriminate.
  destruct (hexPair c1 c2) as [vr |] eqn:Er; [| discriminate].
  destruct (hexPair c3 c4) as [vg |] eqn:Eg; [| discriminate].
  destruct (hexPair c5 c6) as [vb |] eqn:Eb; [| discriminate].
  intro H. injection H as <-. cbn [r g b].
  apply hexPair_range in Er. apply hexPair_range in Eg. apply hexPair_range in Eb.
  repeat split; lia.
Qed.

Lemma Qfloor_between (x : Q) (lo hi : Z) :
  (inject_Z lo <= x)%Q -> (x <= inject_Z hi + (1 # 2))%Q -> (lo <= Qfloor x <= hi)%Z.
Proof.
  intros Hlo Hhi. split.
  - rewrite <- (Qfloor_Z lo). apply Qfloor_resp_le. exact Hlo.
  - pose proof (Qfloor_le x) as Hf.
    assert (Hlt : (inject_Z (Qfloor x) < inject_Z (hi + 1))%Q).
    { rewrite inject_Z_plus. change (inject_Z 1) with 1%Q. lra. }
    rewrite <- Zlt_Qlt in Hlt. lia.
Qed.

Lemma hslToCss_Fin (hue sat light : Q) :
  hslToCss (JS.Fin hue) (JS.Fin sat) (JS.Fin light)
  = cssHsl (Qfloor (hue + (1 # 2))%Q)
      (Qfloor ((let m := if Qle_bool 1 sat then 1 else sat in
                if Qle_bool 0 m then m else 0) * 100 + (1 # 2))%Q)
      (Qfloor ((let m := if Qle_bool 1 light then 1 else light in
                if Qle_bool 0 m then m else 0) * 100 + (1 # 2))%Q).
Proof.
  unfold hslToCss. cbv zeta.
  change (JS.ofZ 0) with (JS.Fin 0). change (JS.ofZ 1) with (JS.Fin 1).
  rewrite !clamp_Fin. reflexivity.
Qed.

(** The colour [applySaturation] makes of a colour it parses. *)
Lemma applySaturation_hsl (hex : string) (rgb : RGB) :
  hexToRgb hex = Some rgb ->
  exists hue light : Z,
    (0 <= hue <= 360)%Z /\ (0 <= light <= 100)%Z
    /\ forall sat : Q,
       exists percent : Z,
         applySaturation hex (JS.Fin sat) = mkPaint (cssHsl hue percent light) (JS.Fin 1)
         /\ percent
            = Qfloor ((let m := if Qle_bool 1 sat then 1 else sat in
                       if Qle_bool (2 # 5) m then m else 2 # 5) * 100 + (1 # 2))%Q.
Proof.
  intro Hrgb. unfold applySaturation. rewrite Hrgb. cbv zeta.
  destruct (hexToRgb_bounds hex rgb Hrgb) as [Hr [Hg Hb]].
  destruct (rgbToHsl_unit _ _ _ (channel_unit _ Hr) (channel_unit _ Hg) (channel_unit _ Hb)
              (JS.ofZ (r rgb)) (JS.ofZ (g rgb)) (JS.ofZ (b rgb)) eq_refl eq_refl eq_refl)
    as [hue [sat0 [light [Heq [Hh [_ [Hl _]]]]]]].
  rewrite Heq. cbn [h l].
  exists (Qfloor (hue + (1 # 2))%Q),
         (Qfloor ((let m := if Qle_bool 1 light then 1 else light in
                   if Qle_bool 0 m then m else 0) * 100 + (1 # 2))%Q).
  split.
  { apply Qfloor_between.
    - change (inject_Z 0) with 0%Q. lra.
    - change (inject_Z 360) with 360%Q. lra. }
  split.
  { cbv zeta.
    apply Qfloor_between; change (inject_Z 0) with 0%Q; change (inject_Z 100) with 100%Q;
      destruct (Qle_bool 1 light) eqn:A;
      try apply Qle_bool_iff in A; try apply NumFacts.Qle_bool_false in A;
      match goal with
      | |- context [Qle_bool 0 ?u] => destruct (Qle_bool 0 u) eqn:B
      end;
      try apply Qle_bool_iff in B; try apply NumFacts.Qle_bool_false in B; lra. }
  intro sat. change (JS.ofZ 1) with (JS.Fin 1). rewrite clamp_Fin. cbv zeta.
  set (c := (if Qle_bool (2 # 5) (if Qle_bool 1 sat then 1 else sat)
             then (if Qle_bool 1 sat then 1 else sat) else 2 # 5)%Q).
  assert (Hc : ((2 # 5) <= c <= 1)%Q).
  { unfold c. destruct (Qle_bool 1 sat) eqn:A;
      [apply Qle_bool_iff in A | apply NumFacts.Qle_bool_false in A];
      match goal with
      | |- context [Qle_bool (2 # 5) ?u] => destruct (Qle_bool (2 # 5) u) eqn:B
      end;
      try apply Qle_bool_iff in B; try apply NumFacts.Qle_bool_false in B; lra. }
  rewrite hslToCss_Fin. eexists. split; [reflexivity |]. cbv zeta.
  assert (Hm : ((if Qle_bool 0 (if Qle_bool 1 c then 1 else c)
                 then (if Qle_bool 1 c then 1 else c) else 0) == c)%Q).
  { destruct (Qle_bool 1 c) eqn:A;
      [apply Qle_bool_iff in A | apply NumFacts.Qle_bool_false in A];
      match goal with
      | |- context [Qle_bool 0 ?u] => destruct (Qle_bool 0 u) eqn:B
      end;
      try apply Qle_bool_iff in B; try apply NumFacts.Qle_bool_false in B; lra. }
  rewrite Hm. reflexivity.
Qed.

(** X11.  [applySaturation] returns a colour it cannot parse unchanged.
    For a colour it parses, the result is an [hsl(...)] text whose hue (at
    most 360) and lightness (a percentage) are those of the colour and do
    not depend on the saturation asked for, and whose saturation is a
    whole percentage between 40 and 100: 40 for a request of 0.4 or less,
    100 for a request of 1 or more.  The alpha is always 1. *)
Theorem applySaturation_keeps_hue_and_lightness :
  forall hex : string,
  (hexToRgb hex = None -> forall sat, applySaturation hex sat = mkPaint hex (JS.Fin 1))
  /\ (forall rgb : RGB,
        hexToRgb hex = Some rgb ->
        exists hue light : Z,
          (0 <= hue <= 360)%Z /\ (0 <= light <= 100)%Z
          /\ forall sat : Q,
             exists percent : Z,
               applySaturation hex (JS.Fin sat) = mkPaint (cssHsl hue percent light) (JS.Fin 1)
               /\ (40 <= percent <= 100)%Z
               /\ ((sat <= 2 # 5)%Q -> percent = 40%Z)
               /\ ((1 <= sat)%Q -> percent = 100%Z)).
Proof.
  intro hex. split.
  - intros Hnone sat. unfold applySaturation. rewrite Hnone. reflexivity.
  - intros rgb Hrgb.
    destruct (applySaturation_hsl hex rgb Hrgb) as [hue [light [Hh [Hl Hsat]]]].
    exists hue, light. split; [exact Hh |]. split; [exact Hl |].
    intro sat. destruct (Hsat sat) as [percent [Hp Hpc]].
    exists percent. split; [exact Hp |]. clear Hp. subst percent. cbv zeta.
    destruct (Qle_bool 1 sat) eqn:A;
      [apply Qle_bool_iff in A | apply NumFacts.Qle_bool_false in A];
      match goal with
      | |- context [Qle_bool (2 # 5) ?u] => destruct (Qle_bool (2 # 5) u) eqn:B
      end;
      try apply Qle_bool_iff in B; try apply NumFacts.Qle_bool_false in B;
      try (exfalso; lra).
    + change (Qfloor (1 * 100 + (1 # 2))) with 100%Z.
      split; [lia |]. split; [intro Hs; exfalso; lra | reflexivity].
    + split; [apply Qfloor_between;
               [change (inject_Z 40) with 40%Q | change (inject_Z 100) with 100%Q]; lra |].
      split; intro Hs.
      * assert (Heq : (sat * 100 + (1 # 2) == 40 + (1 # 2))%Q) by lra.
        rewrite Heq. reflexivity.
      * exfalso. lra.
    + change (Qfloor ((2 # 5) * 100 + (1 # 2))) with 40%Z.
      split; [lia |]. split; [reflexivity | intro Hs; exfalso; lra].
Qed.

Lemma applySaturation_keeps_hue_and_lightness_witness :
  exists hue light percent : Z,
    applySaturation "#1b9e77" (JS.Fin 7) = mkPaint (cssHsl hue percent light) (JS.Fin 1)
    /\ percent = 100%Z.
Proof.
  destruct (applySaturation_keeps_hue_and_lightness "#1b9e77") as [_ H].
  destruct (H (mkRGB 27 158 119) eq_refl) as [hue [light [_ [_ Hsat]]]].
  destruct (Hsat 7%Q) as [percent [Hp [_ [_ Hfull]]]].
  exists hue, light, percent. split; [exact Hp | apply Hfull; discriminate].
Defined.

(** ** Drawing a node *)

(** Every colour [topicColor] returns is one [hexToRgb] parses. *)
Lemma topicColor_parses (topic : option string) :
  exists (hex : string) (rgb : RGB), topicColor topic = Some hex /\ hexToRgb hex = Some rgb.
Proof.
  assert (Hother : exists (hex : string) (rgb : RGB),
             Some OTHER_TOPIC_COLOR = Some hex /\ hexToRgb hex = Some rgb).
  { exists OTHER_TOPIC_COLOR. eexists. split; reflexivity. }
  unfold topicColor.
  destruct (negb (JS.truthy topic)); [exact Hother |]. cbv zeta.
  destruct (String.length _ =? 0)%nat; [exact Hother |].
  destruct (String.eqb _ "other"); [exact Hother |].
  change (Z.of_nat (List.length TOPIC_COLORS)) with 8%Z.
  set (k := Z.to_nat (JS.Math_abs (hashStr (JS.trim (JS.toString topic))) mod 8)).
  assert (Hk : (k < 8)%nat).
  { unfold k, JS.Math_abs.
    pose proof (Z.mod_pos_bound (Z.abs (hashStr (JS.trim (JS.toString topic)))) 8
                  ltac:(lia)). lia. }
  do 8 (destruct k as [| k]; [eexists; eexists; split; reflexivity |]).
  lia.
Qed.

(** The whole percentage of a count of connections. *)
Lemma saturation_percent (k : Z) (c : Q) :
  clamp (JS.Fin (inject_Z k / 5)) (JS.Fin (2 # 5)) (JS.Fin 1) = JS.Fin c ->
  Qfloor (c * 100 + (1 # 2)) = Z.max 40 (Z.min 100 (20 * k)).
Proof.
  intro Hc.
  destruct (clamp_cases (2 # 5) 1 ltac:(discriminate) (inject_Z k / 5))
    as [c' [Hc' [_ [Hmid [Hlo Hhi]]]]].
  rewrite Hc in Hc'. injection Hc' as <-.
  assert (Hdiv : (inject_Z k / 5 == inject_Z k * (1 # 5))%Q) by reflexivity.
  destruct (Z_le_gt_dec k 2) as [H2 | H2].
  { rewrite Hlo.
    - rewrite Z.max_l by lia. reflexivity.
    - rewrite Hdiv. rewrite Zle_Qle in H2. change (inject_Z 2) with 2%Q in H2. lra. }
  destruct (Z_le_gt_dec 5 k) as [H5 | H5].
  { rewrite Hhi.
    - rewrite Z.max_r, Z.min_l by lia. reflexivity.
    - rewrite Hdiv. rewrite Zle_Qle in H5. change (inject_Z 5) with 5%Q in H5. lra. }
  rewrite Hmid.
  - rewrite Z.max_r, Z.min_r by lia.
    assert (Hval : (inject_Z k / 5 * 100 + (1 # 2) == inject_Z (20 * k) + (1 # 2))%Q).
    { rewrite inject_Z_mult. change (inject_Z 20) with 20%Q. rewrite Hdiv. ring. }
    rewrite Hval.
    assert (Hb : (20 * k <= Qfloor (inject_Z (20 * k) + (1 # 2)) <= 20 * k)%Z)
      by (apply Qfloor_between; lra).
    lia.
  - assert (H2' : (2 <= k)%Z) by lia. assert (H5' : (k <= 5)%Z) by lia.
    rewrite Zle_Qle in H2', H5'. change (inject_Z 2) with 2%Q in H2'.
    change (inject_Z 5) with 5%Q in H5'. rewrite Hdiv. lra.
Qed.

(** A number of [lo, 1] is its own clamp to [lo, 1]. *)
Lemma clamp_unit_id (lo c : Q) :
  (lo <= c <= 1)%Q ->
  ((if Qle_bool lo (if Qle_bool 1 c then 1 else c)
    then (if Qle_bool 1 c then 1 else c) else lo) == c)%Q.
Proof.
  intro Hc.
  destruct (Qle_bool 1 c) eqn:A;
    [apply Qle_bool_iff in A | apply NumFacts.Qle_bool_false in A];
    match goal with
    | |- context [Qle_bool lo ?u] => destruct (Qle_bool lo u) eqn:B
    end;
    try apply Qle_bool_iff in B; try apply NumFacts.Qle_bool_false in B; lra.
Qed.

(** The text [applySaturation] makes of a colour it parses, from the hue
    and the lightness [rgbToHsl] gives the parsed channels. *)
Lemma applySaturation_rounds (hex : string) (rgb : RGB) (hue sat0 light : Q) :
  hexToRgb hex = Some rgb ->
  rgbToHsl (JS.ofZ (r rgb)) (JS.ofZ (g rgb)) (JS.ofZ (b rgb))
  = mkHSL (JS.Fin hue) (JS.Fin sat0) (JS.Fin light) ->
  (0 <= light <= 1)%Q ->
  forall sat : Q,
  ((2 # 5) <= sat <= 1)%Q ->
  applySaturation hex (JS.Fin sat)
  = mkPaint (cssHsl (Qfloor (hue + (1 # 2))) (Qfloor (sat * 100 + (1 # 2)))
               (Qfloor (light * 100 + (1 # 2))))
      (JS.Fin 1).
Proof.
  intros Hrgb Heq Hl sat Hsat. unfold applySaturation. rewrite Hrgb. cbv zeta.
  rewrite Heq. cbn [h l].
  change (JS.ofZ 1) with (JS.Fin 1). rewrite clamp_Fin. cbv zeta.
  set (c := (if Qle_bool (2 # 5) (if Qle_bool 1 sat then 1 else sat)
             then (if Qle_bool 1 sat then 1 else sat) else 2 # 5)%Q).
  assert (Hc : (c == sat)%Q) by (apply clamp_unit_id; exact Hsat).
  rewrite hslToCss_Fin. cbv zeta.
  assert (Hs : Qfloor ((if Qle_bool 0 (if Qle_bool 1 c then 1 else c)
                        then (if Qle_bool 1 c then 1 else c) else 0) * 100 + (1 # 2))
               = Qfloor (sat * 100 + (1 # 2))).
  { apply Qfloor_comp. rewrite (clamp_unit_id 0 c) by lra. rewrite Hc. reflexivity. }
  assert (Hli : Qfloor ((if Qle_bool 0 (if Qle_bool 1 light then 1 else light)
                         then (if Qle_bool 1 light then 1 else light) else 0) * 100
                        + (1 # 2))
                = Qfloor (light * 100 + (1 # 2))).
  { apply Qfloor_comp. rewrite (clamp_unit_id 0 light) by lra. reflexivity. }
  rewrite Hs, Hli. reflexivity.
Qed.

(** X12.  [drawNode] always fills the disk of a node with an [hsl(...)]
    colour, never with a raw palette colour.  The hue and the lightness
    are those of the topic's colour: with [topicColor (topic n)] parsed by
    [hexToRgb] and turned by [rgbToHsl] into a hue of [0, 360) and a
    lightness of [0, 1], the fill has that hue, rounded, and a hundred
    times that lightness, rounded, so it is the same for all the nodes of a
    topic.  The saturation is 20 percent for each connection counted, kept
    between 40 and 100 percent. *)
Theorem drawNode_fill :
  forall (eventNodes : list GraphNode) (themeColors : option ThemeColors)
         (n : GraphNode) (x y : option JS.number) (globalScale : JS.number),
  exists (hex : string) (rgb : RGB) (hueOfTopic satOfTopic lightOfTopic : Q),
    topicColor (topic n) = Some hex
    /\ hexToRgb hex = Some rgb
    /\ rgbToHsl (JS.ofZ (r rgb)) (JS.ofZ (g rgb)) (JS.ofZ (b rgb))
       = mkHSL (JS.Fin hueOfTopic) (JS.Fin satOfTopic) (JS.Fin lightOfTopic)
    /\ (0 <= hueOfTopic < 360)%Q /\ (0 <= lightOfTopic <= 1)%Q
    /\ (let hue := Qfloor (hueOfTopic + (1 # 2)) in
        let light := Qfloor (lightOfTopic * 100 + (1 # 2)) in
        nth_error (drawNode eventNodes themeColors n x y globalScale) 3
        = Some (Canvas.fillStyle
                  (Some (cssHsl hue (Z.max 40 (Z.min 100 (20 * socialCount n))) light)))
        /\ (0 <= hue <= 360)%Z /\ (0 <= light <= 100)%Z
        /\ (forall n' : GraphNode,
              topic n' = topic n ->
              nth_error (drawNode eventNodes themeColors n' x y globalScale) 3
              = Some (Canvas.fillStyle
                        (Some (cssHsl hue (Z.max 40 (Z.min 100 (20 * socialCount n')))
                                 light))))).
Proof.
  intros ws theme n x y gs.
  destruct (topicColor_parses (topic n)) as [hex [rgb [Hhex Hrgb]]].
  destruct (hexToRgb_bounds hex rgb Hrgb) as [Hr [Hg Hb]].
  destruct (rgbToHsl_unit _ _ _ (channel_unit _ Hr) (channel_unit _ Hg) (channel_unit _ Hb)
              (JS.ofZ (r rgb)) (JS.ofZ (g rgb)) (JS.ofZ (b rgb)) eq_refl eq_refl eq_refl)
    as [hue [sat0 [light [Heq [Hh [_ [Hl _]]]]]]].
  exists hex, rgb, hue, sat0, light.
  split; [exact Hhex |]. split; [exact Hrgb |]. split; [exact Heq |].
  split; [exact Hh |]. split; [exact Hl |]. cbv zeta.
  assert (Hfill : forall m : GraphNode,
             topic m = topic n ->
             nth_error (drawNode ws theme m x y gs) 3
             = Some (Canvas.fillStyle
                       (Some (cssHsl (Qfloor (hue + (1 # 2)))
                                (Z.max 40 (Z.min 100 (20 * socialCount m)))
                                (Qfloor (light * 100 + (1 # 2))))))).
  { intros m Hm. unfold drawNode. cbv zeta. cbn [app nth_error].
    rewrite Hm, Hhex. rewrite socialSaturation_clamp.
    destruct (clamp_cases (2 # 5) 1 ltac:(discriminate) (inject_Z (socialCount m) / 5))
      as [c [Hc [Hin _]]].
    rewrite Hc. rewrite (applySaturation_rounds hex rgb hue sat0 light Hrgb Heq Hl c Hin).
    cbn [color]. rewrite (saturation_percent _ _ Hc). reflexivity. }
  split; [apply Hfill; reflexivity |].
  split.
  { apply Qfloor_between.
    - change (inject_Z 0) with 0%Q. lra.
    - change (inject_Z 360) with 360%Q. lra. }
  split.
  { apply Qfloor_between.
    - change (inject_Z 0) with 0%Q. lra.
    - change (inject_Z 100) with 100%Q. lra. }
  exact Hfill.
Qed.

(** ** Theme colours *)

Lemma themeColor_resolved (styles : string -> string) (name : string) :
  In name colorVariables ->
  themeColor (getThemeColors styles) name = Some (JS.trim (styles name)).
Proof.
  unfold colorVariables. cbn [In].
  intro H.
  repeat (destruct H as [<- | H]; [reflexivity |]). contradiction.
Qed.

(** X13.  Once the theme is resolved the drawing never falls back on its
    built-in colours: every name [useThemeColors] resolves is there, so
    [themeColors?.[name] ?? fallback] is the trimmed value the stylesheet
    gives, the empty string for a variable that is not set.  The outline
    and the label of a node are drawn with those values. *)
Theorem themed_never_falls_back :
  forall (styles : string -> string),
  (forall name fallback : string,
      In name colorVariables ->
      themed (Some (getThemeColors styles)) name fallback = JS.trim (styles name))
  /\ (forall (eventNodes : list GraphNode) (n : GraphNode) (x y : option JS.number)
             (globalScale : JS.number),
        nth_error (drawNode eventNodes (Some (getThemeColors styles)) n x y globalScale) 6
        = Some (Canvas.strokeStyle
                  (JS.trim (styles (if hasPoster n
                                    then "--color-graph-node-poster-outline"
                                    else "--color-graph-node-outline")%string)))
        /\ (isEvent n = true ->
            nth_error (drawNode eventNodes (Some (getThemeColors styles)) n x y globalScale) 8
            = Some (Canvas.fillStyle (Some (JS.trim (styles "--color-graph-node-label"%string))))))
  /\ (forall name fallback : string, themed None name fallback = fallback).
Proof.
  intro styles.
  assert (Hthemed : forall name fallback : string,
             In name colorVariables ->
             themed (Some (getThemeColors styles)) name fallback = JS.trim (styles name)).
  { intros name fallback Hin. unfold themed.
    rewrite (themeColor_resolved styles name Hin). reflexivity. }
  split; [exact Hthemed |]. split; [| reflexivity].
  intros ws n x y gs. split.
  - unfold drawNode. cbv zeta. cbn [app nth_error].
    destruct (hasPoster n); rewrite Hthemed; try reflexivity; cbn; tauto.
  - intro Hev. unfold drawNode. cbv zeta. rewrite Hev. cbn [app nth_error].
    rewrite Hthemed; [reflexivity | cbn; tauto].
Qed.

Lemma themed_never_falls_back_witness :
  themed (Some (getThemeColors (fun _ => ""%string))) "--color-graph-node-outline" "#ffffff"
  = ""%string.
Proof.
  destruct (themed_never_falls_back (fun _ => ""%string)) as [H _].
  apply (H "--color-graph-node-outline"%string "#ffffff"%string).
  cbn. tauto.
Defined.

(** ** The theme toggle *)

Module ThemeToggleFacts.

Import ThemeToggle.

Lemma mount_agrees (w : Browser) : agrees (mount w).
Proof. split; reflexivity. Qed.

Lemma handle_agrees (st : State) (e : Event) : agrees st -> agrees (handle st e).
Proof.
  destruct st as [isDark w]. intros [Hs Hc]. cbn [fst snd] in Hs, Hc.
  destruct e as [| matches]; cbn [handle].
  - split; reflexivity.
  - destruct (prefersDark w); [| split; assumption].
    rewrite Hs. destruct isDark; cbn [JS.truthy];
      unfold agrees; cbn [fst snd stored darkClass]; split;
      first [assumption | reflexivity].
Qed.

Lemma run_agrees (w : Browser) (events : list Event) : agrees (run w events).
Proof.
  unfold run. generalize (mount_agrees w). generalize (mount w).
  induction events as [| e events IH]; intros st Hst; cbn [fold_left]; [exact Hst |].
  apply IH. apply handle_agrees. exact Hst.
Qed.

Lemma run_clicks (st : State) (events : list Event) :
  agrees st ->
  fst (fold_left handle events st) = fst (fold_left handle (clicks events) st).
Proof.
  revert st. induction events as [| e events IH]; intros st Hst; [reflexivity |].
  destruct e as [| matches]; cbn [clicks filter fold_left].
  - apply IH. apply handle_agrees. exact Hst.
  - fold (clicks events). rewrite IH by (apply handle_agrees; exact Hst).
    (* a media change leaves [isDark] as it is, and what the clicks do to
       [isDark] does not depend on the browser *)
    assert (Hsame : forall (cs : list Event) (s1 s2 : State),
               fst s1 = fst s2 ->
               fst (fold_left handle (clicks cs) s1) = fst (fold_left handle (clicks cs) s2)).
    { clear. induction cs as [| c cs IHc]; intros s1 s2 H12; [exact H12 |].
      destruct c as [| m]; cbn [clicks filter]; fold (clicks cs); [| apply IHc; exact H12].
      cbn [fold_left]. apply IHc.
      destruct s1 as [d1 w1], s2 as [d2 w2]. cbn [fst] in H12. subst d2. reflexivity. }
    apply Hsame.
    destruct st as [isDark w]. destruct Hst as [Hs _]. cbn [fst snd] in Hs.
    cbn [handle]. destruct (prefersDark w); [| reflexivity].
    rewrite Hs. destruct isDark; reflexivity.
Qed.

End ThemeToggleFacts.

(** X14.  The theme the toggle stores is the theme it restores: after the
    effect has run for [isDark], [resolveInitialTheme] returns [isDark]
    again, whatever the media query answers; a stored value always wins
    over the media query, and without a stored value and without
    [matchMedia] the theme is light. *)
Theorem ThemeToggle_persist_resolve :
  forall (isDark : bool) (w : ThemeToggle.Browser),
  ThemeToggle.resolveInitialTheme (Some (ThemeToggle.persist isDark w)) = isDark
  /\ (forall v : string,
        ThemeToggle.stored w = Some v -> v <> ""%string ->
        ThemeToggle.resolveInitialTheme (Some w) = String.eqb v "dark")
  /\ (JS.truthy (ThemeToggle.stored w) = false ->
      ThemeToggle.resolveInitialTheme (Some w)
      = match ThemeToggle.prefersDark w with Some m => m | None => false end).
Proof.
  intros isDark w. split; [destruct isDark; reflexivity |]. split.
  - intros v Hv Hne. unfold ThemeToggle.resolveInitialTheme. rewrite Hv.
    destruct v as [| c v]; [contradiction Hne; reflexivity | reflexivity].
  - intro Hf. unfold ThemeToggle.resolveInitialTheme. rewrite Hf. reflexivity.
Qed.

Lemma ThemeToggle_persist_resolve_witness :
  ThemeToggle.resolveInitialTheme
    (Some (ThemeToggle.mkBrowser (Some "light"%string) (Some true) false)) = false.
Proof.
  destruct (ThemeToggle_persist_resolve true
              (ThemeToggle.mkBrowser (Some "light"%string) (Some true) false))
    as [_ [H _]].
  apply (H "light"%string); [reflexivity | discriminate].
Defined.

(** X15.  From the mount on, over every sequence of clicks and media
    changes, the stored theme and the [dark] class of the root say what
    the toggle's state says, and the media changes change nothing: the
    theme is the one found at the mount, flipped once for each click. *)
Theorem ThemeToggle_state_follows_clicks :
  forall (w : ThemeToggle.Browser) (events : list ThemeToggle.Event),
  let final := ThemeToggle.run w events in
  ThemeToggle.stored (snd final) = Some (if fst final then "dark" else "light")%string
  /\ ThemeToggle.darkClass (snd final) = fst final
  /\ fst final = fst (ThemeToggle.run w (ThemeToggle.clicks events))
  /\ fst final
     = (if Nat.even (List.length (ThemeToggle.clicks events))
        then ThemeToggle.resolveInitialTheme (Some w)
        else negb (ThemeToggle.resolveInitialTheme (Some w))).
Proof.
  intros w events final.
  destruct (ThemeToggleFacts.run_agrees w events) as [Hs Hc].
  split; [exact Hs |]. split; [exact Hc |].
  assert (Hclicks : fst final = fst (ThemeToggle.run w (ThemeToggle.clicks events))).
  { unfold final, ThemeToggle.run.
    rewrite (ThemeToggleFacts.run_clicks _ events (ThemeToggleFacts.mount_agrees w)).
    reflexivity. }
  split; [exact Hclicks |].
  rewrite Hclicks. unfold ThemeToggle.run.
  change (ThemeToggle.resolveInitialTheme (Some w)) with (fst (ThemeToggle.mount w)).
  generalize (ThemeToggle.mount w). clear.
  induction events as [| e events IH]; intro st; [reflexivity |].
  destruct e as [| m]; cbn [ThemeToggle.clicks filter];
    fold (ThemeToggle.clicks events); [| apply IH].
  cbn [fold_left List.length]. rewrite IH.
  destruct st as [d b0]. cbn [ThemeToggle.handle fst].
  rewrite Nat.even_succ, <- Nat.negb_even.
  destruct (Nat.even (List.length (ThemeToggle.clicks events))); cbn [negb];
    [reflexivity | apply negb_involutive].
Qed.

(** ** The guides and the stored theme *)

(** X16.  The graph reads the stored theme as a truth value, and both
    values the toggle stores, "dark" and "light", are true: once the
    toggle has mounted, whatever the theme, the guide rings are stroked
    with "#374151" and the band labels filled with "#80859a", never with
    the themed label colour.  With nothing stored the rings are stroked
    with "#eceef2" and the labels take the themed colour. *)
Theorem drawGuides_after_toggle :
  forall (themeColors : option ThemeColors) (globalScale : JS.number),
  (forall (w : ThemeToggle.Browser) (events : list ThemeToggle.Event),
      let isDark := ThemeToggle.stored (snd (ThemeToggle.run w events)) in
      nth_error (drawGuides isDark themeColors globalScale) 2
      = Some (Canvas.strokeStyle "#374151")
      /\ nth_error (drawGuides isDark themeColors globalScale) 12
         = Some (Canvas.fillStyle (Some "#80859a"%string)))
  /\ nth_error (drawGuides None themeColors globalScale) 2
     = Some (Canvas.strokeStyle "#eceef2")
  /\ nth_error (drawGuides None themeColors globalScale) 12
     = Some (Canvas.fillStyle (Some (themed themeColors "--color-graph-label" "#80859a"))).
Proof.
  intros theme gs. split; [| split; reflexivity].
  intros w events isDark.
  destruct (ThemeToggleFacts.run_agrees w events) as [Hs _].
  unfold isDark. rewrite Hs.
  destruct (fst (ThemeToggle.run w events)); split; reflexivity.
Qed.

(** ** The collision radius *)

Lemma find_Some {A : Type} (p : A -> bool) (xs : list A) (x : A) :
  JS.find p xs = Some x -> In x xs /\ p x = true.
Proof.
  induction xs as [| y xs IH]; cbn [JS.find]; [discriminate |].
  destruct (p y) eqn:E.
  - intros [= <-]. split; [left; reflexivity | exact E].
  - intro H. destruct (IH H) as [Hin Hp]. split; [right; exact Hin | exact Hp].
Qed.

Lemma find_None {A : Type} (p : A -> bool) (xs : list A) :
  JS.find p xs = None -> forall x, In x xs -> p x = false.
Proof.
  induction xs as [| y xs IH]; cbn [JS.find]; [intros _ x [] |].
  destruct (p y) eqn:E; [discriminate |].
  intros H x [<- | Hx]; [exact E | apply IH; assumption].
Qed.

Lemma sameString_eq (a c : option string) : JS.sameString a c = true <-> a = c.
Proof.
  destruct a as [u |], c as [v |]; cbn [JS.sameString].
  - rewrite String.eqb_eq. split; [intros -> | intros [= ->]]; reflexivity.
  - split; discriminate.
  - split; discriminate.
  - split; reflexivity.
Qed.

Lemma NoDup_map_injective {A B : Type} (f : A -> B) (xs : list A) (x y : A) :
  NoDup (map f xs) -> In x xs -> In y xs -> f x = f y -> x = y.
Proof.
  induction xs as [| z xs IH]; cbn [map]; [intros _ [] |].
  intros Hnd Hx Hy Hf. inversion Hnd as [| ? ? Hnot Hnd']; subst.
  destruct Hx as [<- | Hx]; destruct Hy as [<- | Hy].
  - reflexivity.
  - exfalso. apply Hnot. rewrite Hf. apply in_map. exact Hy.
  - exfalso. apply Hnot. rewrite <- Hf. apply in_map. exact Hx.
  - apply IH; assumption.
Qed.

(** The size scale in closed form, over two different scores. *)
Lemma nodeValScale_form (nodes : list GraphNode) (n1 n2 : GraphNode) :
  In n1 nodes -> In n2 nodes -> (score n1 < score n2)%Q ->
  exists lo hi : Q,
    (lo < hi)%Q
    /\ (forall n, In n nodes -> (lo <= score n <= hi)%Q)
    /\ forall q : Q,
       nodeValScale nodes (JS.Fin q) = JS.Fin (60 * ((2 # 5) + (q - lo) / (hi - lo))).
Proof.
  intros H1 H2 Hlt.
  destruct nodes as [| n0 nodes]; [contradiction |].
  destruct (scores_min_max n0 nodes) as [lo [hi [Hlo [Hhi [_ [_ Hbounds]]]]]].
  assert (Hlh : (lo < hi)%Q).
  { pose proof (Hbounds n1 H1). pose proof (Hbounds n2 H2). lra. }
  exists lo, hi. split; [exact Hlh |]. split; [exact Hbounds |].
  intro q. unfold nodeValScale. cbv zeta. rewrite Hlo, Hhi.
  change (JS.sub (JS.Fin q) (JS.Fin lo)) with (JS.Fin (q - lo)).
  change (JS.sub (JS.Fin hi) (JS.Fin lo)) with (JS.Fin (hi - lo)).
  rewrite NumFacts.div_Fin by (intro H0; lra). reflexivity.
Qed.

(** X17.  The collision radius of a simulated node whose id is the id of
    no node of the working set is 18.  Over a working set that holds two
    different scores, the collision radius of a node of the set is an
    ordinary number between 32 and 92, and when the ids of the set are
    distinct it is the size the node is drawn with, plus 8. *)
Theorem collideRadius_is_size_plus_padding :
  forall (eventNodes : list GraphNode) (n : GraphNode),
  ((forall e, In e eventNodes -> id e <> id n) ->
   collideRadius eventNodes n = JS.Fin (10 + 8))
  /\ (forall n1 n2 : GraphNode,
        In n1 eventNodes -> In n2 eventNodes -> (score n1 < score n2)%Q ->
        In n eventNodes ->
        (exists radius : Q,
            collideRadius eventNodes n = JS.Fin radius /\ (32 <= radius <= 92)%Q)
        /\ (NoDup (map id eventNodes) ->
            exists size : Q,
              nodeValScale eventNodes (JS.Fin (score n)) = JS.Fin size
              /\ collideRadius eventNodes n = JS.Fin (size + 8))).
Proof.
  intros ws n. split.
  - intro Hno. unfold collideRadius. cbv zeta.
    destruct (JS.find _ ws) as [e |] eqn:E; [| reflexivity].
    apply find_Some in E. destruct E as [Hin Hp].
    apply sameString_eq in Hp. exfalso. apply (Hno e Hin Hp).
  - intros n1 n2 H1 H2 Hlt Hn.
    destruct (nodeValScale_form ws n1 n2 H1 H2 Hlt) as [lo [hi [Hlh [Hbounds Hform]]]].
    assert (Hfound : exists e, JS.find (fun e => JS.sameString (id e) (id n)) ws = Some e
                               /\ In e ws /\ id e = id n).
    { destruct (JS.find (fun e => JS.sameString (id e) (id n)) ws) as [e |] eqn:E.
      - exists e. split; [reflexivity |]. apply find_Some in E.
        destruct E as [Hin Hp]. apply sameString_eq in Hp. split; assumption.
      - exfalso. pose proof (find_None _ ws E n Hn) as Hp. cbn beta in Hp.
        assert (Ht : JS.sameString (id n) (id n) = true) by (apply sameString_eq; reflexivity).
        congruence. }
    destruct Hfound as [e [Efind [Hin Hid]]].
    assert (Hsize : forall m, In m ws ->
               (24 <= 60 * ((2 # 5) + (score m - lo) / (hi - lo)) <= 84)%Q).
    { intros m Hm. destruct (Hbounds m Hm) as [Hm1 Hm2].
      assert (Hunit : (0 <= (score m - lo) / (hi - lo) <= 1)%Q).
      { split.
        - apply Qle_shift_div_l; [lra |]. rewrite Qmult_0_l. lra.
        - apply Qle_shift_div_r; [lra |]. rewrite Qmult_1_l. lra. }
      set (t := ((score m - lo) / (hi - lo))%Q) in *. lra. }
    split.
    + unfold collideRadius. cbv zeta. rewrite Efind, Hform.
      eexists. split; [reflexivity |].
      pose proof (Hsize e Hin) as Hs. change (inject_Z 8) with 8%Q.
      set (v := (60 * ((2 # 5) + (score e - lo) / (hi - lo)))%Q) in *. lra.
    + intro Hnd.
      assert (He : e = n) by (apply (NoDup_map_injective id ws e n Hnd Hin Hn Hid)).
      subst e. rewrite Hform. eexists. split; [reflexivity |].
      unfold collideRadius. cbv zeta. rewrite Efind, Hform. reflexivity.
Qed.

Lemma collideRadius_is_size_plus_padding_witness :
  collideRadius fifteen aPerson = JS.Fin (10 + 8)
  /\ exists radius : Q,
       collideRadius fifteen (eventAt "event:a" 15 None) = JS.Fin radius
       /\ (32 <= radius <= 92)%Q.
Proof.
  split.
  - destruct (collideRadius_is_size_plus_padding fifteen aPerson) as [H _].
    apply H. intros e He. vm_compute in He.
    repeat (destruct He as [<- | He]; [discriminate |]). contradiction.
  - destruct (collideRadius_is_size_plus_padding fifteen (eventAt "event:a" 15 None))
      as [_ H].
    destruct (H (eventAt "event:o" 1 None) (eventAt "event:a" 15 None)) as [Hr _].
    + vm_compute. tauto.
    + left. reflexivity.
    + reflexivity.
    + left. reflexivity.
    + exact Hr.
Defined.

(** ** The hash as a polynomial *)

Lemma toInt32_mod (z : Z) : (JS.toInt32 z mod 2 ^ 32 = z mod 2 ^ 32)%Z.
Proof.
  unfold JS.toInt32.
  replace ((z + 2 ^ 31) mod 2 ^ 32 - 2 ^ 31)%Z
    with ((z + 2 ^ 31) mod 2 ^ 32 + (- 2 ^ 31))%Z by lia.
  rewrite Zplus_mod_idemp_l. f_equal. lia.
Qed.

Lemma toInt32_congruent (x y : Z) :
  (x mod 2 ^ 32 = y mod 2 ^ 32)%Z -> JS.toInt32 x = JS.toInt32 y.
Proof.
  intro H. unfold JS.toInt32. f_equal.
  rewrite (Zplus_mod x), (Zplus_mod y), H. reflexivity.
Qed.

Lemma hashStr_from_polynomial (u : string) (z : Z) :
  hashStr_from (JS.toInt32 z) u = JS.toInt32 (hashPolynomial_from z u).
Proof.
  revert z. induction u as [| c u IH]; intro z; [reflexivity |].
  cbn [hashStr_from hashPolynomial_from]. rewrite hashStr_step.
  rewrite <- IH. f_equal. apply toInt32_congruent.
  rewrite (Zplus_mod (31 * JS.toInt32 z)), (Zplus_mod (31 * z)).
  rewrite (Zmult_mod 31 (JS.toInt32 z)), (Zmult_mod 31 z), toInt32_mod. reflexivity.
Qed.

(** X18.  [hashStr] is the polynomial hash in 31 wrapped to 32 bits: the
    wrap at every round gives what one wrap of the exact polynomial gives.
    Hashing a concatenation is hashing the second string from the hash of
    the first. *)
Theorem hashStr_is_wrapped_polynomial :
  forall u v : string,
  hashStr u = JS.toInt32 (hashPolynomial_from 0 u)
  /\ hashStr (u ++ v) = hashStr_from (hashStr u) v.
Proof.
  intros u v. split.
  - unfold hashStr. change 0%Z with (JS.toInt32 0) at 1. apply hashStr_from_polynomial.
  - unfold hashStr. generalize 0%Z. induction u as [| c u IH]; intro z; [reflexivity |].
    cbn [append hashStr_from]. apply IH.
Qed.

(** ** The ranking as a fixed point *)

Lemma filter_all {A : Type} (p : A -> bool) (xs : list A) :
  (forall x, In x xs -> p x = true) -> filter p xs = xs.
Proof.
  induction xs as [| x xs IH]; intro H; [reflexivity |].
  cbn [filter]. rewrite (H x (or_introl eq_refl)). f_equal.
  apply IH. intros y Hy. apply H. right. exact Hy.
Qed.

(** X19.  Ranking a working set again returns it unchanged, and ranking
    commutes with enrichment: the working set of the enriched payload is
    the enriched working set of the payload. *)
Theorem eventNodes_fixed_point :
  forall nodes : list GraphNode,
  eventNodes (eventNodes nodes) = eventNodes nodes
  /\ eventNodes (enriched nodes) = enriched (eventNodes nodes).
Proof.
  intro nodes. split.
  - set (ws := eventNodes nodes).
    assert (Hev : filter isEvent ws = ws).
    { apply filter_all. intros n Hn. apply eventNodes_are_events in Hn.
      destruct Hn as [Hty _]. unfold isEvent. rewrite Hty. reflexivity. }
    assert (Hsorted : StronglySorted (ranksBefore score) ws).
    { pose proof (sort_StronglySorted score (filter isEvent nodes)) as Hs.
      rewrite <- (firstn_skipn 10) in Hs. apply StronglySorted_app in Hs.
      destruct Hs as [Hs _]. exact Hs. }
    assert (Hlen : (List.length ws <= 10)%nat).
    { unfold ws, eventNodes. cbv zeta. rewrite length_firstn. apply Nat.le_min_l. }
    unfold eventNodes at 1. cbv zeta. rewrite Hev.
    change (fun a b : GraphNode => (score b - score a)%Q) with (descending score).
    rewrite <- (sort_unique score ws ws Hsorted (fun v => eq_refl)).
    apply firstn_all2. exact Hlen.
  - apply eventNodes_map; reflexivity.
Qed.

(** ** The horizon and the radius, one against the other *)

(** X20.  A longer horizon never pushes a node outward: for two positive
    horizons the radius under the longer one is at most the radius under
    the shorter one, and a node that starts within 7 days has the same
    radius under every horizon.  And the horizon never shrinks when a node
    joins the set. *)
Theorem radiusForTime_horizon :
  forall (Date_parse : string -> option Z) (now : Z) (n : GraphNode),
  (forall H1 H2 : Q,
      (0 < H1)%Q -> (H1 <= H2)%Q ->
      exists r1 r2 : Q,
        radiusForTime Date_parse now (JS.Fin H1) n = JS.Fin r1
        /\ radiusForTime Date_parse now (JS.Fin H2) n = JS.Fin r2
        /\ (r2 <= r1)%Q)
  /\ (forall (ts : Z) (hz1 hz2 : JS.number),
        Date_parse (JS.orEmpty (starts_at n)) = Some ts ->
        (secondsUntil now ts <= 604800)%Q ->
        radiusForTime Date_parse now hz1 n = radiusForTime Date_parse now hz2 n)
  /\ (forall (nodes : list GraphNode) (H H' : Q),
        horizonSec Date_parse now nodes = JS.Fin H ->
        horizonSec Date_parse now (n :: nodes) = JS.Fin H' ->
        (H <= H')%Q).
Proof.
  intros parse now n. split; [| split].
  - intros H1 H2 Hpos Hle.
    destruct (parse (JS.orEmpty (starts_at n))) as [ts |] eqn:Hp.
    + rewrite !(radiusForTime_parsed parse now _ n ts Hp). cbv zeta.
      pose proof (secondsUntil_nonneg now ts) as H0.
      set (dt := secondsUntil now ts) in *.
      destruct (Qle_bool dt 86400); [eexists; eexists; repeat split; apply Qle_refl |].
      destruct (Qle_bool dt 604800); [eexists; eexists; repeat split; apply Qle_refl |].
      fold (laterFraction (JS.Fin H1) dt). fold (laterFraction (JS.Fin H2) dt).
      assert (Hpos2 : (0 < H2)%Q) by lra.
      rewrite (laterFraction_Fin H1 dt Hpos), (laterFraction_Fin H2 dt Hpos2).
      eexists. eexists. split; [reflexivity |]. split; [reflexivity |].
      assert (Hq : (dt / H2 <= dt / H1)%Q).
      { apply Qle_shift_div_l; [exact Hpos |].
        assert (Hq2 : (0 <= dt / H2)%Q) by (apply Qdiv_nonneg; assumption).
        assert (Hdt : (dt / H2 * H2 == dt)%Q) by (field; intro Hz; lra).
        set (q := (dt / H2)%Q) in *. nra. }
      destruct (Qle_bool 1 (dt / H1)) eqn:A1; destruct (Qle_bool 1 (dt / H2)) eqn:A2;
        try apply Qle_bool_iff in A1; try apply Qle_bool_iff in A2;
        try apply NumFacts.Qle_bool_false in A1; try apply NumFacts.Qle_bool_false in A2;
        set (q1 := (dt / H1)%Q) in *; set (q2 := (dt / H2)%Q) in *; lra.
    + rewrite !(radiusForTime_unparsed parse now _ n Hp).
      exists 390%Q, 390%Q. repeat split. apply Qle_refl.
  - intros ts hz1 hz2 Hp Hsoon.
    rewrite !(radiusForTime_parsed parse now _ n ts Hp). cbv zeta.
    destruct (Qle_bool (secondsUntil now ts) 86400); [reflexivity |].
    assert (E : Qle_bool (secondsUntil now ts) 604800 = true)
      by (apply Qle_bool_iff; exact Hsoon).
    rewrite E. reflexivity.
  - intros nodes H H' HH HH'.
    destruct (horizonSec_max parse now nodes) as [h [Hh [Hge [_ Hin]]]].
    destruct (horizonSec_max parse now (n :: nodes)) as [h' [Hh' [Hge' [Hub' _]]]].
    rewrite HH in Hh. rewrite HH' in Hh'. injection Hh as <-. injection Hh' as <-.
    destruct Hin as [-> | Hin]; [exact Hge' |].
    apply Hub'. unfold futureEventDeltas. cbn [flat_map]. apply in_or_app. right.
    exact Hin.
Qed.

Lemma radiusForTime_horizon_witness :
  exists r1 r2 : Q,
    radiusForTime ISO.parse noon (JS.Fin 907200) inTenDaysAndAHalf = JS.Fin r1
    /\ radiusForTime ISO.parse noon (JS.Fin 1209600) inTenDaysAndAHalf = JS.Fin r2
    /\ (r2 <= r1)%Q.
Proof.
  destruct (radiusForTime_horizon ISO.parse noon inTenDaysAndAHalf) as [H _].
  apply (H 907200%Q 1209600%Q); [reflexivity | discriminate].
Defined.

(** ** The guide rings and the nodes *)

(** X21.  [drawGuides] draws three circles round the centre, of radius
    160, 250 and 350, and the radius [radiusForTime] gives a node is never
    far from one of them: within 30 of the first or within 40 of one of
    the two others. *)
Theorem radiusForTime_near_a_guide :
  forall (isDark : option string) (themeColors : option ThemeColors)
         (globalScale : JS.number),
  exists m0 m1 m2 : Q,
    (m0 == 160 /\ m1 == 250 /\ m2 == 350)%Q
    /\ nth_error (drawGuides isDark themeColors globalScale) 4
       = Some (Canvas.arc (JS.ofZ 0) (JS.ofZ 0) (JS.Fin m0) (JS.ofZ 0)
                 (JS.mul (JS.ofZ 2) JS.Math_PI))
    /\ nth_error (drawGuides isDark themeColors globalScale) 7
       = Some (Canvas.arc (JS.ofZ 0) (JS.ofZ 0) (JS.Fin m1) (JS.ofZ 0)
                 (JS.mul (JS.ofZ 2) JS.Math_PI))
    /\ nth_error (drawGuides isDark themeColors globalScale) 10
       = Some (Canvas.arc (JS.ofZ 0) (JS.ofZ 0) (JS.Fin m2) (JS.ofZ 0)
                 (JS.mul (JS.ofZ 2) JS.Math_PI))
    /\ forall (Date_parse : string -> option Z) (now : Z) (horizonSec : JS.number)
              (n : GraphNode),
       exists r : Q,
         radiusForTime Date_parse now horizonSec n = JS.Fin r
         /\ (Qabs (r - m0) <= 30 \/ Qabs (r - m1) <= 40 \/ Qabs (r - m2) <= 40)%Q.
Proof.
  intros isDark theme gs.
  exists ((inject_Z 130 + inject_Z 190) / inject_Z 2)%Q,
         ((inject_Z 210 + inject_Z 290) / inject_Z 2)%Q,
         ((inject_Z 310 + inject_Z 390) / inject_Z 2)%Q.
  split; [repeat split; reflexivity |].
  split; [reflexivity |]. split; [reflexivity |]. split; [reflexivity |].
  intros parse now hz n.
  assert (H0 : ((inject_Z 130 + inject_Z 190) / inject_Z 2 == 160)%Q) by reflexivity.
  assert (H1 : ((inject_Z 210 + inject_Z 290) / inject_Z 2 == 250)%Q) by reflexivity.
  assert (H2 : ((inject_Z 310 + inject_Z 390) / inject_Z 2 == 350)%Q) by reflexivity.
  destruct (parse (JS.orEmpty (starts_at n))) as [ts |] eqn:Hp.
  - rewrite (radiusForTime_parsed parse now hz n ts Hp). cbv zeta.
    pose proof (secondsUntil_nonneg now ts) as Hdt.
    set (dt := secondsUntil now ts) in *.
    destruct (Qle_bool dt 86400) eqn:E1.
    { apply Qle_bool_iff in E1. eexists. split; [reflexivity |]. left.
      apply Qabs_Qle_condition. rewrite H0. band_spans. split; lra. }
    apply NumFacts.Qle_bool_false in E1.
    destruct (Qle_bool dt 604800) eqn:E2.
    { apply Qle_bool_iff in E2. eexists. split; [reflexivity |]. right. left.
      apply Qabs_Qle_condition. rewrite H1. band_spans. split; lra. }
    fold (laterFraction hz dt).
    destruct (laterFraction_unit hz dt Hdt) as [t [Ht [Ht0 Ht1]]].
    rewrite Ht. eexists. split; [reflexivity |]. right. right.
    apply Qabs_Qle_condition. rewrite H2. split; lra.
  - rewrite (radiusForTime_unparsed parse now hz n Hp).
    exists 390%Q. split; [reflexivity |]. right. right.
    apply Qabs_Qle_condition. rewrite H2. split; lra.
Qed.

Lemma drawNode_fill_witness :
  exists hue light : Z,
    nth_error (drawNode fifteen None (eventAt "event:a" 15 None) None None (JS.Fin 1)) 3
    = Some (Canvas.fillStyle (Some (cssHsl hue 40 light)))
    /\ nth_error (drawNode fifteen None (eventAt "event:b" 14 None) None None (JS.Fin 1)) 3
       = Some (Canvas.fillStyle (Some (cssHsl hue 40 light))).
Proof.
  destruct (drawNode_fill fifteen None (eventAt "event:a" 15 None) None None (JS.Fin 1))
    as [hex [rgb [hue [sat [light [_ [_ [_ [_ [_ [Hfill [_ [_ Hsame]]]]]]]]]]]]].
  eexists. eexists. split; [exact Hfill |].
  apply (Hsame (eventAt "event:b" 14 None)). reflexivity.
Defined.

Lemma topicList_lists_each_topic_once_witness :
  In "Other"%string (topicList (fun _ _ => 0%Q) (eventNodes fifteen)).
Proof.
  destruct (topicList_lists_each_topic_once (fun _ _ => 0%Q) fifteen) as [_ [H _]].
  apply H. exists (eventAt "event:a" 15 None). split; [| reflexivity].
  vm_compute. left. reflexivity.
Defined.
